(** * Unit conversion engine of [units/conversions.py]

    A shallow embedding of the conversion engine: the alias resolver
    [solve_aliases], the token decomposer [components], the breakdown engine
    [breakdown], the nonlinear converters, the change-of-base functions with
    their dispatch table [_switch], and the orchestrator [convert].

    Python floats are idealised as real numbers ([R]); strings are Python 2
    byte strings ([string]); integers are [Z].  Exceptions are results of an
    error monad.  The constants that [conversions.py] takes from the module
    [constants] (the speed of light [cc] and the astronomical lengths and
    masses) are fields of a record [Constants] that every function of the
    engine receives. *)

From Stdlib Require Import Reals Lra String Ascii List ZArith Bool Sorted.
From Stdlib Require Import DecimalString DecimalZ Lia.
Import ListNotations.

Open Scope string_scope.

(** ** Exceptions *)

Inductive exn : Type :=
| ValueError (msg : string)
| KeyError (key : string)
| TypeError
| ZeroDivisionError
| IndexError.

Inductive result (A : Type) : Type :=
| Ok (a : A)
| Raise (e : exn).

Arguments Ok {A} a.
Arguments Raise {A} e.

Definition bind {A B : Type} (c : result A) (k : A -> result B) : result B :=
  match c with
  | Ok a => k a
  | Raise e => Raise e
  end.

Notation "x <- c ;; k" := (bind c (fun x => k))
  (at level 61, c at next level, right associativity).
Notation "' p <- c ;; k" := (bind c (fun x => let 'p := x in k))
  (at level 61, p pattern, c at next level, right associativity).

(** ** Python string primitives *)

Module PyStr.

Definition isdigit (c : ascii) : bool :=
  (N.leb 48 (N_of_ascii c) && N.leb (N_of_ascii c) 57)%bool.

(** The characters [str.split()] treats as separators. *)
Definition isspace (c : ascii) : bool :=
  match N_of_ascii c with
  | 9%N | 10%N | 11%N | 12%N | 13%N | 32%N => true
  | _ => false
  end.

Definition is_empty (s : string) : bool :=
  match s with
  | EmptyString => true
  | String _ _ => false
  end.

(** [s[-1]] *)
Fixpoint last_char (s : string) : option ascii :=
  match s with
  | EmptyString => None
  | String c s' =>
      match s' with
      | EmptyString => Some c
      | String _ _ => last_char s'
      end
  end.

(** [s[:n]] and [s[n:]] for [n >= 0] *)
Fixpoint take (n : nat) (s : string) : string :=
  match n, s with
  | S k, String c s' => String c (take k s')
  | _, _ => EmptyString
  end.

Fixpoint drop (n : nat) (s : string) : string :=
  match n, s with
  | S k, String _ s' => drop k s'
  | _, _ => s
  end.

(** [s[-n:]] and [s[:-n]] for [n > 0] *)
Definition take_last (n : nat) (s : string) : string :=
  drop (String.length s - n) s.

Definition drop_last (n : nat) (s : string) : string :=
  take (String.length s - n) s.

Definition snoc (s : string) (c : ascii) : string := s ++ String c EmptyString.

(** [s.split()] *)
Fixpoint split_ws_from (w : string) (s : string) : list string :=
  match s with
  | EmptyString => if is_empty w then [] else [w]
  | String c s' =>
      if isspace c
      then (if is_empty w then split_ws_from EmptyString s'
            else w :: split_ws_from EmptyString s')
      else split_ws_from (snoc w c) s'
  end.

Definition split_ws (s : string) : list string := split_ws_from EmptyString s.

(** [s.split(sep)] for a one-character separator *)
Fixpoint split_on_from (sep : ascii) (w : string) (s : string) : list string :=
  match s with
  | EmptyString => [w]
  | String c s' =>
      if Ascii.eqb c sep then w :: split_on_from sep EmptyString s'
      else split_on_from sep (snoc w c) s'
  end.

Definition split_on (sep : ascii) (s : string) : list string :=
  split_on_from sep EmptyString s.

(** [sep in s] for a one-character [sep] *)
Fixpoint contains_char (sep : ascii) (s : string) : bool :=
  match s with
  | EmptyString => false
  | String c s' => Ascii.eqb c sep || contains_char sep s'
  end.

(** [s.replace(pat, rep)] for a non-empty [pat]: occurrences are replaced
    from left to right and do not overlap.  [skip] counts the characters of
    an occurrence that are still to be passed over. *)
Fixpoint replace_from (pat rep : string) (skip : nat) (s : string) : string :=
  match s with
  | EmptyString => EmptyString
  | String c s' =>
      match skip with
      | S k => replace_from pat rep k s'
      | O =>
          if String.prefix pat s
          then rep ++ replace_from pat rep (String.length pat - 1) s'
          else String c (replace_from pat rep O s')
      end
  end.

Definition replace (pat rep : string) (s : string) : string :=
  replace_from pat rep O s.

(** [x in l] for a list of strings *)
Definition mem (x : string) (l : list string) : bool :=
  existsb (String.eqb x) l.

(** [sorted(l)]: byte-wise lexicographic order, by insertion *)
Fixpoint insert_sorted (x : string) (l : list string) : list string :=
  match l with
  | [] => [x]
  | y :: l' => if String.leb x y then x :: l else y :: insert_sorted x l'
  end.

Definition sorted (l : list string) : list string :=
  fold_right insert_sorted [] l.

(** [sorted(list(set(a) - set(b)))] *)
Definition sorted_difference (a b : list string) : list string :=
  sorted (nodup string_dec (filter (fun x => negb (mem x b)) a)).

(** [sep.join(l)] is [String.concat sep l]. *)

(** Decimal numerals: [int(s)] for [s] matching [-?[0-9]+], the value of a
    digit string, and [str(n)] / ['%d' % n]. *)
Definition digit_value (c : ascii) : Z := Z.of_N (N_of_ascii c) - 48.

Fixpoint digits_value_from (acc : Z) (s : string) : Z :=
  match s with
  | EmptyString => acc
  | String c s' => digits_value_from (10 * acc + digit_value c) s'
  end.

Definition digits_value (s : string) : Z := digits_value_from 0 s.

Definition int_of_string (s : string) : Z :=
  match s with
  | String "-" s' => - digits_value s'
  | _ => digits_value s
  end.

Definition string_of_int (n : Z) : string :=
  NilZero.string_of_int (Z.to_int n).

(** *** The pattern of [components] under [re.search]

    Three groups in sequence: a greedy run of digits (possibly empty), a
    lazy non-empty run of arbitrary characters other than newline, and an
    optional minus sign followed by a greedy non-empty run of digits. *)

(** The longest run of digits at the front of [s], and what follows it. *)
Fixpoint span_digits (s : string) : string * string :=
  match s with
  | EmptyString => (EmptyString, EmptyString)
  | String c s' =>
      if isdigit c
      then let (d, r) := span_digits s' in (String c d, r)
      else (EmptyString, s)
  end.

(** Group 3, the optional sign and the digits, anchored at the front of [t]. *)
Definition match_power (t : string) : option string :=
  match t with
  | String "-" t' =>
      match span_digits t' with
      | (EmptyString, _) => None
      | (d, _) => Some (String "-" d)
      end
  | _ =>
      match span_digits t with
      | (EmptyString, _) => None
      | (d, _) => Some d
      end
  end.

(** Groups 2 and 3: the lazy group takes the fewest characters (none of them
    a newline) after which group 3 matches. *)
Fixpoint match_basis (r : string) : option (string * string) :=
  match r with
  | EmptyString => None
  | String c r' =>
      if Ascii.eqb c "010" then None
      else
        match match_power r' with
        | Some p => Some (String c EmptyString, p)
        | None =>
            match match_basis r' with
            | Some (b, p) => Some (String c b, p)
            | None => None
            end
        end
  end.

(** The whole pattern anchored at the front of [s]: the greedy group 1 first
    takes every digit and gives them back one at a time. *)
Fixpoint match_at (s : string) : option (string * string * string) :=
  match s with
  | EmptyString => None
  | String c s' =>
      let no_factor :=
        match match_basis s with
        | Some (b, p) => Some (EmptyString, b, p)
        | None => None
        end in
      if isdigit c
      then
        match match_at s' with
        | Some (f, b, p) => Some (String c f, b, p)
        | None => no_factor
        end
      else no_factor
  end.

(** [re.search]: the match at the leftmost position that has one. *)
Fixpoint re_search (s : string) : option (string * string * string) :=
  match s with
  | EmptyString => None
  | String _ s' =>
      match match_at s with
      | Some m => Some m
      | None => re_search s'
      end
  end.

End PyStr.

Import PyStr.

Open Scope R_scope.

(** ** Numbers *)

(** Float division and powers raise [ZeroDivisionError] where Python does. *)
Definition float_div (x y : R) : result R :=
  if Req_dec_T y 0 then Raise ZeroDivisionError else Ok (x / y).

Definition float_pow (x : R) (n : Z) : result R :=
  if (n <? 0)%Z
  then (if Req_dec_T x 0 then Raise ZeroDivisionError else Ok (powerRZ x n))
  else Ok (powerRZ x n).

(** Modelled from the spec: [log10] is not defined in [conversions.py] (it can
    only arrive through [from constants import *]); the specification writes
    the inverse magnitude transforms with the decimal logarithm.  For a
    positive argument this is that logarithm; the statements below use it
    only there. *)
Definition log10 (x : R) : R := ln x / ln 10.

(** The names [conversions.py] takes from the module [constants]. *)
Record Constants : Type := {
  cc : R;
  au : R;
  pc : R;
  ly : R;
  Rsun : R;
  Msun : R
}.

(** ** Nonlinear converters *)

Inductive converter : Type :=
| Fahrenheit
| Celcius
| VegaMag
| ABMag
| STMag.

(** The values a factor can take while a unit is broken down: a float, an
    instance of a subclass of [NonLinearConverter] with its [prefix] and
    [power], or [None] (what [__rmul__] returns for a non-number). *)
Inductive pyval : Type :=
| Num (r : R)
| Conv (cls : converter) (prefix : R) (power : R)
| PyNone.

(** [NonLinearConverter.__init__] with its defaults *)
Definition new_converter (cls : converter) : pyval := Conv cls 1 1.

(** [a * b] *)
Definition py_mul (a b : pyval) : result pyval :=
  match a, b with
  | Num x, Num y => Ok (Num (x * y))
  | Num x, Conv cls prefix _ => Ok (Conv cls (prefix * x) 1)
  | Conv _ _ _, Conv _ _ _ => Ok PyNone
  | PyNone, Conv _ _ _ => Ok PyNone
  | _, _ => Raise TypeError
  end.

(** [a * x] for a float [x] *)
Definition mul_float (a : pyval) (x : R) : result R :=
  match a with
  | Num r => Ok (r * x)
  | _ => Raise TypeError
  end.

(** [a ** n] for an integer [n] (a Python [int]: a power read from a token
    is assumed to fit a machine integer, beyond which [__pow__] would not
    recognise it as a number) *)
Definition py_pow (a : pyval) (n : Z) : result pyval :=
  match a with
  | Num x => r <- float_pow x n ;; Ok (Num r)
  | Conv cls prefix power => Ok (Conv cls prefix (power + IZR n))
  | PyNone => Raise TypeError
  end.

Definition F0_Vega : R := 1e-09.
Definition F0_AB : R := 3.6307805477010024e-23.
Definition F0_ST : R := 0.036307805477010027.

(** [__call__] of the five converters; [inv] is the keyword [inv]. *)
Definition call (cls : converter) (prefix : R) (a : R) (inv : bool) : result R :=
  match cls with
  | Fahrenheit =>
      if negb inv then Ok ((a * prefix + 459.67) * 5 / 9)
      else float_div (a * 9 / 5 - 459.67) prefix
  | Celcius =>
      if negb inv then Ok (a * prefix + 273.15)
      else float_div (a - 273.15) prefix
  | VegaMag =>
      if negb inv then Ok (Rpower 10 (- a / 2.5) * F0_Vega)
      else Ok (- 2.5 * log10 (a / F0_Vega))
  | ABMag =>
      if negb inv then Ok (Rpower 10 (- a / 2.5) * F0_AB)
      else Ok (- 2.5 * log10 (a / F0_AB))
  | STMag =>
      if negb inv then Ok (Rpower 10 (- a / - 2.5) * F0_ST)
      else Ok (- 2.5 * log10 (a / F0_ST))
  end.

(** ** The static tables *)

Inductive entry : Type :=
| Scalar (r : R)
| Class (cls : converter).

Definition _factors (K : Constants) : list (string * (entry * string)) :=
  [ ("m",     (Scalar 1e+00,  "m"));
    ("A",     (Scalar 1e-10,  "m"));
    ("AU",    (Scalar (au K), "m"));
    ("pc",    (Scalar (pc K), "m"));
    ("ly",    (Scalar (ly K), "m"));
    ("Rsun",  (Scalar (Rsun K), "m"));
    ("ft",    (Scalar 0.3048, "m"));
    ("in",    (Scalar 0.0254, "m"));
    ("mi",    (Scalar 1609.344, "m"));
    ("g",     (Scalar 1e-03,  "kg"));
    ("Msun",  (Scalar (Msun K), "kg"));
    ("s",     (Scalar 1e+00,  "s"));
    ("min",   (Scalar 60,     "s"));
    ("h",     (Scalar 3600,   "s"));
    ("d",     (Scalar (24 * 3600), "s"));
    ("yr",    (Scalar (365 * 24 * 3600), "s"));
    ("cr",    (Scalar (100 * 365 * 24 * 3600), "s"));
    ("hz",    (Scalar 1e+00,  "cy s-1"));
    ("rad",   (Scalar 0.15915494309189535, "cy"));
    ("cy",    (Scalar 1e+00,  "cy"));
    ("deg",   (Scalar (1 / 360), "cy"));
    ("am",    (Scalar (1 / 360 / 60), "cy"));
    ("as",    (Scalar (1 / 360 / 3600), "cy"));
    ("sr",    (Scalar 1e+00,  "sr"));
    ("N",     (Scalar 1e+00,  "kg m s-2"));
    ("dy",    (Scalar 1e-05,  "kg m s-2"));
    ("K",     (Scalar 1e+00,  "K"));
    ("F",     (Class Fahrenheit, "K"));
    ("C",     (Class Celcius, "K"));
    ("J",     (Scalar 1e+00,  "kg m2 s-2"));
    ("W",     (Scalar 1e+00,  "kg m2 s-3"));
    ("erg",   (Scalar 1e-07,  "kg m2 s-2"));
    ("eV",    (Scalar 1.60217646e-19, "kg m2 s-2"));
    ("cal",   (Scalar 4.184,  "kg m2 s-2"));
    ("Pa",    (Scalar 1e+00,  "kg m-1 s-2"));
    ("bar",   (Scalar 1e+05,  "kg m-1 s-2"));
    ("at",    (Scalar 98066.5, "kg m-1 s-2"));
    ("atm",   (Scalar 101325, "kg m-1 s-2"));
    ("torr",  (Scalar 133.322, "kg m-1 s-2"));
    ("psi",   (Scalar 6894,   "kg m-1 s-2"));
    ("Jy",    (Scalar 1e-26,  "kg s-2 cy-1"));
    ("vegamag", (Class VegaMag, "kg m-1 s-3"));
    ("STmag", (Class STMag,   "kg m-1 s-3"));
    ("ABmag", (Class ABMag,   "kg s-2 cy-1")) ]%string.

(** [_scalings] is a dictionary that [components] iterates over; the order of
    the iteration is modelled as the order of the literal.  Two entries can
    both strip a basis to a table key only if one is a prefix of the other
    ([d] and [da], on the bases [dam] and [das]); none of the units evaluated
    below is one of these, and the general statements are about all the
    scales at once. *)
Definition _scalings : list (string * R) :=
  [ ("n",  1e-09);
    ("mu", 1e-06);
    ("m",  1e-03);
    ("c",  1e-02);
    ("d",  1e-01);
    ("da", 1e+01);
    ("h",  1e+02);
    ("k",  1e+03);
    ("M",  1e+06);
    ("G",  1e+09) ]%string.

Definition _aliases : list (string * string) :=
  [ ("micron", "mum");
    ("micro", "mu");
    ("milli", "m");
    ("kilo", "k");
    ("mega", "M");
    ("giga", "G");
    ("nano", "n");
    ("watt", "W");
    ("Watt", "W");
    ("Hz", "hz");
    ("joule", "J");
    ("Joule", "J");
    ("jansky", "Jy");
    ("Jansky", "Jy");
    ("arcsec", "as");
    ("arcmin", "am");
    ("cycles", "cy");
    ("cycle", "cy");
    ("cyc", "cy");
    ("angstrom", "A");
    ("Angstrom", "A");
    (" mag", " vegamag");
    ("/mag", " /vegamag");
    ("inch", "in");
    ("^", "");
    ("**", "") ]%string.

(** Dictionary lookup and membership by key *)
Fixpoint lookup {A : Type} (key : string) (d : list (string * A)) : option A :=
  match d with
  | [] => None
  | (k, v) :: d' => if String.eqb key k then Some v else lookup key d'
  end.

Definition has_key {A : Type} (key : string) (d : list (string * A)) : bool :=
  match lookup key d with
  | Some _ => true
  | None => false
  end.

(** ** Alias resolver and token decomposer *)

Fixpoint map_result {A B : Type} (f : A -> result B) (l : list A)
  : result (list B) :=
  match l with
  | [] => Ok []
  | a :: l' => b <- f a ;; bs <- map_result f l' ;; Ok (b :: bs)
  end.

(** The opening lines of [components], which [solve_aliases] repeats for the
    tokens after a division sign: a final [1] is appended to a token that
    does not end in a digit, and the pattern splits it into factor, basis
    and power.  The factor is the value of a digit string, [1.] when the
    group is empty. *)
Definition token_parts (unit : string) : result (Z * string * Z) :=
  match last_char unit with
  | None => Raise IndexError
  | Some c =>
      let unit := if isdigit c then unit else (unit ++ "1")%string in
      match re_search unit with
      | Some (factor, basis, power) =>
          Ok (if is_empty factor then 1%Z else digits_value factor,
              basis, int_of_string power)
      | None => Ok (1%Z, unit, 1%Z)
      end
  end.

(** The body of the inner loop of [solve_aliases] *)
Definition negate_power (after_div : string) : result string :=
  ' (factor, basis, power) <- token_parts after_div ;;
  let uni := (basis ++ string_of_int (- power))%string in
  Ok (if (factor =? 1)%Z then uni else (string_of_int factor ++ uni)%string).

Definition negate_after_first (uni : list string) : result (list string) :=
  match uni with
  | [] => Ok []
  | first :: rest => rest' <- map_result negate_power rest ;; Ok (first :: rest')
  end.

Definition resolve_names (unit : string) : string :=
  fold_left (fun u alias => replace (fst alias) (snd alias) u) _aliases unit.

Definition solve_aliases (unit : string) : result string :=
  let unit := resolve_names unit in
  if contains_char "/" unit
  then
    unit_ <- map_result negate_after_first (map (split_on "/") (split_ws unit)) ;;
    Ok (String.concat " " (List.concat unit_))
  else Ok unit.

(** The loop over [_scalings] in [components]: the first scale that is a
    prefix of [basis] and leaves a key of [_factors]. *)
Fixpoint strip_scale (K : Constants) (scalings : list (string * R))
  (basis : string) : option (R * string) :=
  match scalings with
  | [] => None
  | (scale, value) :: rest =>
      let scale_unit := take (String.length scale) basis in
      let base_unit := drop (String.length scale) basis in
      if (String.eqb scale_unit scale && has_key base_unit (_factors K))%bool
      then Some (value, base_unit)
      else strip_scale K rest basis
  end.

Definition unknown_unit (basis : string) : exn :=
  ValueError ("Unknown unit " ++ basis).

Definition components (K : Constants) (unit : string)
  : result (pyval * string * Z) :=
  ' (digits, basis, power) <- token_parts unit ;;
  let factor := IZR digits in
  ' (factor, basis) <-
      match strip_scale K _scalings basis with
      | Some (value, base_unit) => Ok (factor * value, base_unit)
      | None =>
          if has_key basis (_factors K) then Ok (factor, basis)
          else Raise (unknown_unit basis)
      end ;;
  match lookup basis (_factors K) with
  | Some (Class cls, si) =>
      factor <- py_mul (Num factor) (new_converter cls) ;;
      Ok (factor, si, power)
  | Some (Scalar r, si) => Ok (Num (factor * r), si, power)
  | None => Raise (KeyError basis)
  end.

(** ** Breakdown engine *)

Fixpoint index (x : string) (l : list string) : option nat :=
  match l with
  | [] => None
  | y :: l' =>
      if String.eqb x y then Some O
      else match index x l' with
           | Some i => Some (S i)
           | None => None
           end
  end.

Fixpoint add_at (i : nat) (d : Z) (l : list Z) : list Z :=
  match l, i with
  | [], _ => []
  | p :: l', O => (p + d)%Z :: l'
  | p :: l', S j => p :: add_at j d l'
  end.

(** The state of the loops of [breakdown] *)
Record totals : Type := {
  total_factor : pyval;
  total_units : list string;
  total_power : list Z
}.

(** One pass of the inner loop, over a token [base] of an SI base string *)
Definition add_base (K : Constants) (power : Z) (t : totals) (base : string)
  : result totals :=
  ' (_, basis_, power_) <- components K base ;;
  match index basis_ (total_units t) with
  | Some i =>
      Ok {| total_factor := total_factor t;
            total_units := total_units t;
            total_power := add_at i (power_ * power) (total_power t) |}
  | None =>
      Ok {| total_factor := total_factor t;
            total_units := total_units t ++ [basis_];
            total_power := total_power t ++ [(power_ * power)%Z] |}
  end.

Fixpoint fold_result {A B : Type} (f : A -> B -> result A) (l : list B) (a : A)
  : result A :=
  match l with
  | [] => Ok a
  | b :: l' => a' <- f a b ;; fold_result f l' a'
  end.

(** One pass of the outer loop, over a token [unit] of the unit string *)
Definition add_unit (K : Constants) (t : totals) (unit : string)
  : result totals :=
  ' (factor, basis, power) <- components K unit ;;
  raised <- py_pow factor power ;;
  total <- py_mul (total_factor t) raised ;;
  fold_result (add_base K power) (split_ws basis)
    {| total_factor := total;
       total_units := total_units t;
       total_power := total_power t |}.

Definition signature (units : list string) (powers : list Z) : string :=
  String.concat " "
    (sorted
       (map (fun ij => (fst ij ++ string_of_int (snd ij))%string)
          (filter (fun ij => negb (snd ij =? 0)%Z) (combine units powers)))).

Definition breakdown (K : Constants) (unit : string) : result (pyval * string) :=
  unit <- solve_aliases unit ;;
  t <- fold_result (add_unit K) (split_ws unit)
         {| total_factor := Num 1; total_units := []; total_power := [] |} ;;
  Ok (total_factor t, signature (total_units t) (total_power t)).

(** ** Change-of-base functions

    Each takes the SI value [arg] and the keyword arguments, already reduced
    to SI, as a dictionary from keyword to float. *)

Definition keywords : Type := list (string * R).

Definition no_wave : exn := ValueError "reference wavelength (wave) not given".
Definition no_wave_freq : exn := ValueError "reference wave/freq not given".
Definition no_size : exn := ValueError "angular size (diam/radius) not given".

Section ChangeOfBase.

Variable K : Constants.

Definition distance2velocity (arg : R) (kwargs : keywords) : result R :=
  match lookup "wave" kwargs with
  | Some wave => q <- float_div (arg - wave) wave ;; Ok (q * cc K)
  | None => Raise no_wave
  end.

Definition velocity2distance (arg : R) (kwargs : keywords) : result R :=
  match lookup "wave" kwargs with
  | Some wave => q <- float_div wave (cc K) ;; Ok (q * arg + wave)
  | None => Raise no_wave
  end.

Definition fnu2flambda (arg : R) (kwargs : keywords) : result R :=
  match lookup "wave" kwargs with
  | Some wave => q <- float_div (cc K) (wave ^ 2) ;; Ok (q * arg)
  | None =>
      match lookup "freq" kwargs with
      | Some freq => q <- float_div (freq ^ 2) (cc K) ;; Ok (q * arg)
      | None => Raise no_wave_freq
      end
  end.

Definition flambda2fnu (arg : R) (kwargs : keywords) : result R :=
  match lookup "wave" kwargs with
  | Some wave => q <- float_div (wave ^ 2) (cc K) ;; Ok (q * arg)
  | None =>
      match lookup "freq" kwargs with
      | Some freq => q <- float_div (cc K) (freq ^ 2) ;; Ok (q * arg)
      | None => Raise no_wave_freq
      end
  end.

Definition fnu2nufnu (arg : R) (kwargs : keywords) : result R :=
  match lookup "wave" kwargs with
  | Some wave => q <- float_div (cc K) wave ;; Ok (q * arg)
  | None =>
      match lookup "freq" kwargs with
      | Some freq => q <- float_div freq (cc K) ;; Ok (q * arg)
      | None => Raise no_wave_freq
      end
  end.

Definition nufnu2fnu (arg : R) (kwargs : keywords) : result R :=
  match lookup "wave" kwargs with
  | Some wave => q <- float_div wave (cc K) ;; Ok (q * arg)
  | None =>
      match lookup "freq" kwargs with
      | Some freq => q <- float_div (cc K) freq ;; Ok (q * arg)
      | None => Raise no_wave_freq
      end
  end.

Definition distance2frequency (arg : R) (kwargs : keywords) : result R :=
  float_div (cc K) arg.

Definition distance2spatialfreq (arg : R) (kwargs : keywords) : result R :=
  match lookup "wave" kwargs with
  | Some wave => float_div (2 * PI * arg) wave
  | None =>
      match lookup "freq" kwargs with
      | Some freq => Ok (2 * PI * arg * cc K * freq)
      | None => Raise no_wave_freq
      end
  end.

Definition spatialfreq2distance (arg : R) (kwargs : keywords) : result R :=
  match lookup "wave" kwargs with
  | Some wave => Ok (wave * arg / (2 * PI))
  | None =>
      match lookup "freq" kwargs with
      | Some freq => q <- float_div (cc K) freq ;; Ok (q * arg / (2 * PI))
      | None => Raise no_wave_freq
      end
  end.

(** The angular surface that [per_sr] and [times_sr] compute *)
Definition surface (kwargs : keywords) : result R :=
  match lookup "diam" kwargs with
  | Some diam => let radius := diam / 2 in Ok (PI * (2 * PI * radius) ^ 2)
  | None =>
      match lookup "radius" kwargs with
      | Some radius => Ok (PI * (2 * PI * radius) ^ 2)
      | None =>
          match lookup "pix" kwargs with
          | Some pix => Ok ((2 * PI * pix) ^ 2)
          | None => Raise no_size
          end
      end
  end.

Definition per_sr (arg : R) (kwargs : keywords) : result R :=
  s <- surface kwargs ;; float_div arg s.

Definition times_sr (arg : R) (kwargs : keywords) : result R :=
  s <- surface kwargs ;; Ok (arg * s).

(** The functions that [_switch] holds *)
Inductive switch_fn : Type :=
| Distance2velocity
| Velocity2distance
| Distance2frequency
| Distance2spatialfreq
| Spatialfreq2distance
| Fnu2flambda
| Flambda2fnu
| Fnu2nufnu
| Nufnu2fnu
| Per_sr
| Times_sr.

Definition apply_switch (f : switch_fn) : R -> keywords -> result R :=
  match f with
  | Distance2velocity => distance2velocity
  | Velocity2distance => velocity2distance
  | Distance2frequency => distance2frequency
  | Distance2spatialfreq => distance2spatialfreq
  | Spatialfreq2distance => spatialfreq2distance
  | Fnu2flambda => fnu2flambda
  | Flambda2fnu => flambda2fnu
  | Fnu2nufnu => fnu2nufnu
  | Nufnu2fnu => nufnu2fnu
  | Per_sr => per_sr
  | Times_sr => times_sr
  end.

Definition _switch : list (string * switch_fn) :=
  [ ("_to_s-1", Distance2velocity);
    ("s-1_to_", Velocity2distance);
    ("m1_to_cy1s-1", Distance2frequency);
    ("cy1s-1_to_m1", Distance2frequency);
    ("m1_to_", Distance2spatialfreq);
    ("_to_m1", Spatialfreq2distance);
    ("cy-1s-2_to_m-1s-3", Fnu2flambda);
    ("m-1s-3_to_cy-1s-2", Flambda2fnu);
    ("cy-1s-2_to_s-3", Fnu2nufnu);
    ("s-3_to_cy-1s-2", Nufnu2fnu);
    ("_to_sr-1", Per_sr);
    ("sr-1_to_", Times_sr) ]%string.

(** [_switch[key]] *)
Definition switch (key : string) : result switch_fn :=
  match lookup key _switch with
  | Some f => Ok f
  | None => Raise (KeyError key)
  end.

(** ** The orchestrator *)

(** The loop that reduces the keyword arguments, pairs of a float and a unit,
    to SI.  The dictionary is a list in the order of its iteration. *)
Fixpoint keywords_SI (kwargs : list (string * (R * string))) : result keywords :=
  match kwargs with
  | [] => Ok []
  | (key, (value, unit)) :: rest =>
      ' (fac_key, _) <- breakdown K unit ;;
      x <- mul_float fac_key value ;;
      rest_SI <- keywords_SI rest ;;
      Ok ((key, x) :: rest_SI)
  end.

(** The source side: [fac_from(args[0])] for a converter, [fac_from*args[0]]
    otherwise *)
Definition from_factor (fac_from : pyval) (arg : R) : result R :=
  match fac_from with
  | Conv cls prefix _ => call cls prefix arg false
  | _ => mul_float fac_from arg
  end.

(** The target side: [fac_to(ret_value,inv=True)] for a converter,
    [ret_value /= fac_to] otherwise *)
Definition to_factor (fac_to : pyval) (ret_value : R) : result R :=
  match fac_to with
  | Conv cls prefix _ => call cls prefix ret_value true
  | Num r => float_div ret_value r
  | PyNone => Raise TypeError
  end.

(** The two tests on a trailing [sr-1]: the function under [key] is applied
    to the argument and the four characters are cut off. *)
Definition peel_sr (key : string) (arg : R) (only : string) (kwargs_SI : keywords)
  : result (R * string) :=
  if String.eqb (take_last 4 only) "sr-1"
  then
    f <- switch key ;;
    a <- apply_switch f arg kwargs_SI ;;
    Ok (a, drop_last 4 only)
  else Ok (arg, only).

Definition convert (_from _to : string) (arg : R)
  (kwargs : list (string * (R * string))) : result R :=
  ' (fac_from, uni_from) <- breakdown K _from ;;
  ' (fac_to, uni_to) <-
      (if negb (String.eqb _to "SI") then breakdown K _to
       else Ok (Num 1, uni_from)) ;;
  kwargs_SI <- keywords_SI kwargs ;;
  ret_value <-
    (if String.eqb uni_from uni_to
     then v <- from_factor fac_from arg ;; Ok (1 * v)
     else
       let uni_from_ := split_ws uni_from in
       let uni_to_ := split_ws uni_to in
       let only_from := String.concat "" (sorted_difference uni_from_ uni_to_) in
       let only_to := String.concat "" (sorted_difference uni_to_ uni_from_) in
       ' (arg, only_to) <- peel_sr "_to_sr-1" arg only_to kwargs_SI ;;
       ' (arg, only_from) <- peel_sr "sr-1_to_" arg only_from kwargs_SI ;;
       f <- switch (only_from ++ "_to_" ++ only_to) ;;
       x <- from_factor fac_from arg ;;
       v <- apply_switch f x kwargs_SI ;;
       Ok (1 * v)) ;;
  to_factor fac_to ret_value.

End ChangeOfBase.

(** ** Hipparcos epoch photometry ([catalogs/gethipdata.py]) *)

(** [line[0].isdigit()] *)
Definition starts_with_digit (line : string) : bool :=
  match line with
  | String c _ => isdigit c
  | EmptyString => false
  end.

(** The body of the loop of [getHipData]: what is written for a line of the
    page, if anything. *)
Definition hip_line (line : string) : option string :=
  if is_empty line then None
  else if String.prefix "<" line then None
  else
    let line :=
      if starts_with_digit line then line else ("# " ++ line)%string in
    let line := replace (String "013" "") "" (replace "|" " " line) in
    Some (line ++ String "010" "")%string.

Fixpoint hip_writes (lines : list string) : list string :=
  match lines with
  | [] => []
  | line :: rest =>
      match hip_line line with
      | Some w => w :: hip_writes rest
      | None => hip_writes rest
      end
  end.

(** [getHipData]: the exchange with the server is given by the reason phrase
    and the body of its response; the result is the sequence of the strings
    written to the output file, [None] when the function returns before the
    file is opened. *)
Definition getHipData (reason contents : string) : option (list string) :=
  if negb (String.eqb reason "OK") then None
  else Some (hip_writes (split_on "010" contents)).

(** ** Notions used in the statements *)

(** Modelled from the spec: the module [constants] is missing from the
    sources.  [cc] is the speed of light that the doctests of [convert] fix
    ([convert('nm','Ghz',1000.)] is [299792.458]) and [Rsun] the solar radius
    of [convert('km h-1','nRsun s-1',1.)]; the other fields hold conventional
    SI values, and no statement below depends on them. *)
Definition SI_constants : Constants :=
  {| cc := 299792458;
     au := 149597870700;
     pc := 3.0856775814913673e16;
     ly := 9460730472580800;
     Rsun := 6.955e8;
     Msun := 1.98892e30 |}.

(** The keywords a change-of-base function tests for, in the order of its
    tests. *)
Definition required_keywords (f : switch_fn) : list string :=
  match f with
  | Distance2velocity | Velocity2distance => ["wave"]
  | Distance2frequency => []
  | Distance2spatialfreq | Spatialfreq2distance
  | Fnu2flambda | Flambda2fnu | Fnu2nufnu | Nufnu2fnu => ["wave"; "freq"]
  | Per_sr | Times_sr => ["diam"; "radius"; "pix"]
  end%string.

(** The error kinds of the specification.  Both are [ValueError] in the
    source and differ by their message. *)
Definition is_unknown_unit (e : exn) : Prop :=
  exists basis, e = unknown_unit basis.

Definition is_missing_context (e : exn) : Prop :=
  e = no_wave \/ e = no_wave_freq \/ e = no_size.




(** What [components] returns for a token that is a key of [_factors], when
    the key's own entry is used: the factor [1.] times the entry's factor,
    or an instance of the entry's class scaled by [1.]. *)
Definition direct_entry (e : entry) : pyval :=
  match e with
  | Scalar r => Num (1 * r)
  | Class cls => Conv cls (1 * 1) 1
  end.

(** A conversion and the conversion back, with the same keywords *)
Definition roundtrip (K : Constants) (A B : string) (x : R)
  (kwargs : list (string * (R * string))) : result R :=
  y <- convert K A B x kwargs ;; convert K B A y kwargs.

(** A string written by [getHipData]: one line, without [|] and carriage
    return, that starts with a digit or with [# ] *)
Definition hip_written_line (w : string) : Prop :=
  exists body,
    w = (body ++ String "010" "")%string /\
    contains_char "|" body = false /\
    contains_char "013" body = false /\
    contains_char "010" body = false /\
    (starts_with_digit body = true \/ String.prefix "# " body = true).

(** Every character of [s] satisfies [P]. *)
Fixpoint all_chars (P : ascii -> bool) (s : string) : bool :=
  match s with
  | EmptyString => true
  | String c s' => P c && all_chars P s'
  end.

(** A character that can stand in the basis of a token without being taken
    for a part of its factor or of its power: no digit, no minus sign, no
    newline *)
Definition basis_char (c : ascii) : bool :=
  negb (isdigit c) && negb (Ascii.eqb c "-") && negb (Ascii.eqb c "010").

(** The strings of an optional minus sign and at least one digit *)
Definition is_numeral (s : string) : bool :=
  match s with
  | String "-" (String c s') => isdigit c && all_chars isdigit s'
  | String c s' => isdigit c && all_chars isdigit s'
  | EmptyString => false
  end.

(** The token written as factor, basis and power *)
Definition token (factor : Z) (basis : string) (power : Z) : string :=
  (string_of_int factor ++ basis ++ string_of_int power)%string.

(** The SI base symbols, and the SI base strings of [_factors] *)
Definition SI_bases : list string := ["m"; "kg"; "s"; "cy"; "sr"; "K"]%string.

Definition si_strings : list string :=
  ["m"; "kg"; "s"; "cy s-1"; "cy"; "sr"; "kg m s-2"; "K"; "kg m2 s-2";
   "kg m2 s-3"; "kg m-1 s-2"; "kg s-2 cy-1"; "kg m-1 s-3"]%string.

(** The invariant of the loops of [breakdown] *)
Definition totals_ok (t : totals) : Prop :=
  NoDup (total_units t) /\
  length (total_units t) = length (total_power t) /\
  incl (total_units t) SI_bases.

(** A token of an SI base string: [components] resolves it to an SI base. *)
Definition base_ok (K : Constants) (base : string) : Prop :=
  exists f b p, components K base = Ok (f, b, p) /\ In b SI_bases.

Definition slash_free (s : string) : Prop := contains_char "/" s = false.

(** * Evaluation *)

Lemma float_div_nonzero (x y : R) : y <> 0 -> float_div x y = Ok (x / y).
Proof.
  intros Hy. unfold float_div.
  destruct (Req_dec_T y 0) as [E | _]; [contradiction | reflexivity].
Qed.

Lemma float_div_zero (x y : R) : y = 0 -> float_div x y = Raise ZeroDivisionError.
Proof.
  intros Hy. unfold float_div.
  destruct (Req_dec_T y 0) as [_ | N]; [reflexivity | contradiction].
Qed.

Lemma float_div_cases (x y : R) :
  (exists z, float_div x y = Ok z) \/ float_div x y = Raise ZeroDivisionError.
Proof.
  unfold float_div. destruct (Req_dec_T y 0); [now right | left; eauto].
Qed.

Lemma float_pow_nonneg (x : R) (n : Z) :
  (n <? 0)%Z = false -> float_pow x n = Ok (powerRZ x n).
Proof. intros Hn. unfold float_pow. now rewrite Hn. Qed.

Lemma float_pow_nonzero (x : R) (n : Z) :
  x <> 0 -> float_pow x n = Ok (powerRZ x n).
Proof.
  intros Hx. unfold float_pow.
  destruct (n <? 0)%Z; [ | reflexivity].
  destruct (Req_dec_T x 0) as [E | _]; [contradiction | reflexivity].
Qed.


(** Strings, lists and integers are computed; the operations on reals stay as
    they are written, and a division or power is released once its operand
    is known to be nonzero. *)
Ltac py_compute :=
  lazy -[Rmult Rplus Rminus Ropp Rinv Rdiv IZR Rpower PI ln log10
         float_div float_pow cc au pc ly Rsun Msun].

Ltac positive :=
  match goal with
  | |- 0 < PI => exact PI_RGT_0
  | |- 0 < ?a * ?b => apply Rmult_lt_0_compat; positive
  | |- _ => lra
  end.

Ltac nonzero :=
  solve [ lra
        | match goal with
          | H : ?a <> 0 |- _ <> 0 => let E := fresh in intro E; apply H; lra
          end
        | apply Rgt_not_eq; unfold Rgt; positive ].

Ltac py_release :=
  first [ rewrite float_pow_nonneg by reflexivity
        | rewrite float_pow_nonzero by nonzero
        | rewrite float_div_nonzero by nonzero
        | rewrite float_div_zero by lra ].

Ltac py_run := py_compute; repeat (py_release; py_compute).

(** Two results that differ only in how a real number is written *)
Ltac same_number :=
  match goal with
  | |- Ok (Num ?a, _, _) = Ok (Num ?b, _, _) => replace a with b; [reflexivity | ]
  | |- Ok (Conv _ ?a _, _, _) = Ok (Conv _ ?b _, _, _) =>
      replace a with b; [reflexivity | ]
  | |- Ok (Num ?a, _) = Ok (Num ?b, _) => replace a with b; [reflexivity | ]
  | |- @Ok R ?a = Ok ?b => replace a with b; [reflexivity | ]
  end.

(** * Strings and dictionaries *)

Lemma take_drop (n : nat) (s : string) : (take n s ++ drop n s)%string = s.
Proof.
  revert s. induction n as [ | n IH]; intros [ | c s]; simpl; try reflexivity.
  now rewrite IH.
Qed.

Lemma take_app (s k : string) : take (String.length s) (s ++ k) = s.
Proof.
  induction s as [ | c s IH]; simpl.
  - destruct k; reflexivity.
  - now rewrite IH.
Qed.

Lemma drop_app (s k : string) : drop (String.length s) (s ++ k) = k.
Proof. induction s as [ | c s IH]; simpl; [reflexivity | exact IH]. Qed.

Lemma last_char_some (c : ascii) (s : string) :
  exists d, last_char (String c s) = Some d.
Proof.
  revert c. induction s as [ | c' s IH]; intros c.
  - now exists c.
  - destruct (IH c') as [d Hd]. exists d.
    change (last_char (String c (String c' s))) with (last_char (String c' s)).
    exact Hd.
Qed.

Lemma has_key_lookup {A : Type} (key : string) (d : list (string * A)) :
  has_key key d = true -> exists v, lookup key d = Some v.
Proof.
  unfold has_key. destruct (lookup key d) as [v | ]; [ | discriminate].
  intros _. now exists v.
Qed.

Lemma has_key_some {A : Type} (key : string) (d : list (string * A)) (v : A) :
  lookup key d = Some v -> has_key key d = true.
Proof. unfold has_key. now intros ->. Qed.

Lemma has_key_none {A : Type} (key : string) (d : list (string * A)) :
  lookup key d = None -> has_key key d = false.
Proof. unfold has_key. now intros ->. Qed.

(** [sorted] returns its argument in order. *)






(** * The token decomposer *)

Section Components.

Variable K : Constants.

Lemma strip_scale_some (scalings : list (string * R)) (basis base_unit : string)
  (value : R) :
  strip_scale K scalings basis = Some (value, base_unit) ->
  has_key base_unit (_factors K) = true /\
  exists scale, In (scale, value) scalings /\ basis = (scale ++ base_unit)%string.
Proof.
  induction scalings as [ | [scale v] rest IH]; simpl; [discriminate | ].
  destruct (String.eqb_spec (take (String.length scale) basis) scale) as [E | N];
    simpl.
  - destruct (has_key (drop (String.length scale) basis) (_factors K)) eqn:HK.
    + intros H. injection H as <- <-. split; [exact HK | ].
      exists scale. split; [now left | ].
      rewrite <- E at 1. symmetry. apply take_drop.
    + intros H. destruct (IH H) as [H1 [s [H2 H3]]].
      split; [exact H1 | ]. exists s. split; [now right | exact H3].
  - intros H. destruct (IH H) as [H1 [s [H2 H3]]].
    split; [exact H1 | ]. exists s. split; [now right | exact H3].
Qed.

Lemma strip_scale_none (scalings : list (string * R)) (basis : string) :
  strip_scale K scalings basis = None ->
  forall scale value key,
    In (scale, value) scalings -> has_key key (_factors K) = true ->
    basis <> (scale ++ key)%string.
Proof.
  induction scalings as [ | [scale0 v0] rest IH]; simpl; [contradiction | ].
  intros H scale value key [E | HIn] HK B.
  - injection E as -> ->. subst basis.
    rewrite take_app, drop_app, String.eqb_refl, HK in H. discriminate.
  - destruct (_ && _)%bool; [discriminate | ].
    exact (IH H scale value key HIn HK B).
Qed.

(** What [components] does once the pattern has split the token: it raises
    exactly when neither the basis nor the basis without a scale is a key of
    [_factors], and then with [Unknown unit]. *)
Lemma components_raises (unit : string) (digits : Z) (basis : string) (power : Z) :
  token_parts unit = Ok (digits, basis, power) ->
  ((exists e, components K unit = Raise e) <->
   (has_key basis (_factors K) = false /\
    forall scale value key,
      In (scale, value) _scalings -> has_key key (_factors K) = true ->
      basis <> (scale ++ key)%string)) /\
  (forall e, components K unit = Raise e -> e = unknown_unit basis).
Proof.
  intros HT. unfold components. rewrite HT. cbn [bind].
  destruct (strip_scale K _scalings basis) as [[value base_unit] | ] eqn:HS.
  - destruct (strip_scale_some _ _ _ _ HS) as [HK [scale [HIn HB]]].
    destruct (has_key_lookup _ _ HK) as [[e si] HL].
    cbn [bind]. rewrite HL.
    assert (HOk : forall x,
               match e with
               | Scalar r0 => Ok (Num (IZR digits * value * r0), si, power)
               | Class cls =>
                   factor <- py_mul (Num (IZR digits * value)) (new_converter cls) ;;
                   Ok (factor, si, power)
               end <> Raise x).
    { intros x. destruct e; discriminate. }
    split; [split | ].
    + intros [x Hx]. exfalso. exact (HOk x Hx).
    + intros [_ HN]. exfalso. exact (HN scale value base_unit HIn HK HB).
    + intros x Hx. exfalso. exact (HOk x Hx).
  - destruct (has_key basis (_factors K)) eqn:HK.
    + destruct (has_key_lookup _ _ HK) as [[e si] HL].
      cbn [bind]. rewrite HL.
      split; [split | ].
      * intros [x Hx]. destruct e; discriminate.
      * intros [HF _]. discriminate.
      * intros x Hx. destruct e; discriminate.
    + cbn [bind]. split; [split | ].
      * intros _. split; [reflexivity | ]. exact (strip_scale_none _ _ HS).
      * intros _. eexists. reflexivity.
      * intros x Hx. now injection Hx as <-.
Qed.

Lemma token_parts_nonempty (unit : string) :
  unit <> ""%string -> exists digits basis power,
    token_parts unit = Ok (digits, basis, power).
Proof.
  intros HN. destruct unit as [ | c s]; [contradiction | ].
  unfold token_parts. destruct (last_char_some c s) as [d ->].
  destruct (re_search _) as [[[f b] p] | ]; eauto.
Qed.

(** C9: [components('zz9')] raises [UnknownUnit] (the [ValueError] with the
    message [Unknown unit zz]).  Every non-empty token is split by the
    pattern into factor, basis and power; [components] then raises exactly
    when the basis is neither a key of the Base Unit Table nor a recognized
    prefix followed by a key, and whatever it raises on a non-empty token is
    [UnknownUnit] for that basis.  The empty string is outside this: there
    [unit[-1]] raises an [IndexError] before anything is decomposed. *)
Theorem components_unknown_unit :
  components K "zz9" = Raise (unknown_unit "zz") /\
  (forall unit, unit <> ""%string ->
     exists digits basis power,
       token_parts unit = Ok (digits, basis, power) /\
       ((exists e, components K unit = Raise e) <->
        (has_key basis (_factors K) = false /\
         forall scale value key,
           In (scale, value) _scalings -> has_key key (_factors K) = true ->
           basis <> (scale ++ key)%string)) /\
       (forall e, components K unit = Raise e ->
          e = unknown_unit basis /\ is_unknown_unit e)).
Proof.
  split; [py_run; reflexivity | ].
  intros unit HN.
  destruct (token_parts_nonempty unit HN) as [digits [basis [power HT]]].
  exists digits, basis, power. split; [exact HT | ].
  destruct (components_raises unit digits basis power HT) as [H1 H2].
  split; [exact H1 | ].
  intros e He. split; [exact (H2 e He) | ].
  exists basis. exact (H2 e He).
Qed.

(** X16: every key of [_factors] other than [min] is resolved to its own
    entry: no prefix followed by a key spells another key. *)
Lemma components_of_key (key : string) (e : entry) (si : string) :
  lookup key (_factors K) = Some (e, si) -> key <> "min"%string ->
  components K key = Ok (direct_entry e, si, 1%Z).
Proof.
  intros H N. unfold _factors in H. cbn [lookup] in H.
  repeat match type of H with
         | (if String.eqb key ?k then _ else _) = _ =>
             destruct (String.eqb_spec key k) as [-> | _];
             [ injection H as <- <-;
               first [ now contradiction N | py_run; reflexivity ]
             | ]
         end.
  discriminate H.
Qed.

(** C2: the basis [min] is a key of the Base Unit Table, with the entry
    [(60., 's')], yet [components('min')] strips the prefix [m] first and
    returns milli-inch, [(1e-3 * 0.0254, 'm', 1)]: the loop over the prefixes
    runs before the test of the basis itself. *)
Theorem components_min :
  lookup "min" (_factors K) = Some (Scalar 60, "s"%string) /\
  components K "min" = Ok (Num (1e-3 * 0.0254), "m"%string, 1%Z) /\
  components K "min" <> Ok (Num 60, "s"%string, 1%Z).
Proof.
  assert (E : components K "min" = Ok (Num (1e-3 * 0.0254), "m"%string, 1%Z)).
  { py_run. same_number. lra. }
  split; [reflexivity | split; [exact E | ]].
  rewrite E. intros H. inversion H.
Qed.

End Components.

(** C9 at the token [zz9], whose basis [zz] is no key and starts with no
    prefix. *)
Lemma components_unknown_unit_zz9 :
  exists e, components SI_constants "zz9" = Raise e /\ is_unknown_unit e.
Proof.
  destruct (components_unknown_unit SI_constants) as [H0 H].
  exists (unknown_unit "zz"). split; [exact H0 | ].
  destruct (H "zz9"%string) as [d [b [p [_ [_ H2]]]]]; [discriminate | ].
  exact (proj2 (H2 _ H0)).
Defined.

(** C9 without the restriction to non-empty tokens fails: on the empty string
    [components] evaluates [unit[-1]] first and raises an [IndexError], which
    is not an [UnknownUnit]. *)
Lemma components_empty_string :
  components SI_constants "" = Raise IndexError /\
  ~ (forall (K : Constants) (unit : string) (e : exn),
        components K unit = Raise e -> is_unknown_unit e).
Proof.
  split; [reflexivity | ].
  intros H.
  destruct (H SI_constants ""%string IndexError eq_refl) as [basis HB].
  discriminate HB.
Qed.

(** * The breakdown engine *)


Section Breakdown.

Variable K : Constants.





Lemma breakdown_SI : breakdown K "SI" = Raise (unknown_unit "SI").
Proof. py_run. reflexivity. Qed.

End Breakdown.


(** * The nonlinear converters *)

Section Converters.

Variable K : Constants.

(** C6: with prefix [p] the Fahrenheit converter computes
    [(value*p + 459.67) * 5/9] forward and [(value*9/5 - 459.67) / p] in the
    inverse direction (a float division, so [p] is not zero); the prefix is
    the one accumulated by [components], 1000 for [kF]; and
    [convert('F','K',123.0)] is [58267/180], about [323.705555556], while
    [convert('K','F',323.7)] is [122.99]. *)
Theorem Fahrenheit_call (p value : R) :
  call Fahrenheit p value false = Ok ((value * p + 459.67) * 5 / 9) /\
  (p <> 0 -> call Fahrenheit p value true = Ok ((value * 9 / 5 - 459.67) / p)) /\
  components K "kF" = Ok (Conv Fahrenheit 1000 1, "K"%string, 1%Z) /\
  convert K "F" "K" 123 [] = Ok (58267 / 180) /\
  Rabs (58267 / 180 - 323.705555556) < 1e-9 /\
  convert K "K" "F" 323.7 [] = Ok 122.99.
Proof.
  split; [reflexivity | ].
  split; [intros Hp; cbn [call negb]; now rewrite float_div_nonzero | ].
  split; [py_run; same_number; lra | ].
  split; [py_run; same_number; lra | ].
  split; [apply Rabs_def1; lra | ].
  py_run. same_number. lra.
Qed.

(** C5: the AB magnitude converter applied forward to [v] returns
    [10^(-v/2.5) * F0] with [F0 = 3.6307805477010024e-23]; so
    [convert('ABmag','Jy',v)] is that flux divided by the factor [1e-26] of
    the jansky, and for [v = 0] it is [3630.7805477010024], about
    [3630.7805477]. *)
Theorem ABMag_call :
  (forall prefix v,
     call ABMag prefix v false
       = Ok (Rpower 10 (- v / 2.5) * 3.6307805477010024e-23)) /\
  (forall v,
     convert K "ABmag" "Jy" v []
       = Ok (Rpower 10 (- v / 2.5) * 3.6307805477010024e-23 / 1e-26)) /\
  convert K "ABmag" "Jy" 0 [] = Ok 3630.7805477010024 /\
  Rabs (3630.7805477010024 - 3630.7805477) < 1e-6.
Proof.
  split; [reflexivity | ].
  split; [intros v; py_run; same_number; lra | ].
  split; [ | apply Rabs_def1; lra].
  py_run. same_number.
  replace (- 0 / (25 * / 10)) with 0 by lra.
  rewrite Rpower_O by lra. lra.
Qed.

(** C7: the ST magnitude converter applied forward to [v] returns
    [10^(v/2.5) * F0] with [F0 = 0.036307805477010027], the exponent being
    positive, and this is what [convert('STmag','SI',v)] returns; its inverse
    applied to a positive [v] returns [-2.5 * log10(v/F0)]. *)
Theorem STMag_call (prefix v : R) :
  call STMag prefix v false = Ok (Rpower 10 (v / 2.5) * 0.036307805477010027) /\
  convert K "STmag" "SI" v [] = Ok (Rpower 10 (v / 2.5) * 0.036307805477010027) /\
  (0 < v ->
   call STMag prefix v true = Ok (- 2.5 * log10 (v / 0.036307805477010027))).
Proof.
  assert (E : - v / - 2.5 = v / 2.5) by lra.
  split; [cbn [call negb]; rewrite E; reflexivity | ].
  split; [ | intros _; reflexivity].
  py_run. same_number.
  replace (- v / (-25 * / 10)) with (v / (25 * / 10)) by (field; lra). lra.
Qed.

End Converters.

(** C6 with the prefix [1] of the plain unit [F] *)
Lemma Fahrenheit_call_inverse :
  1 <> 0 /\
  call Fahrenheit 1 323.7 true = Ok ((323.7 * 9 / 5 - 459.67) / 1).
Proof.
  assert (H : 1 <> 0) by lra.
  split; [exact H | ].
  exact (proj1 (proj2 (Fahrenheit_call SI_constants 1 323.7)) H).
Defined.

(** C7 at the flux [1] *)
Lemma STMag_call_inverse :
  0 < 1 /\
  call STMag 1 1 true = Ok (- 2.5 * log10 (1 / 0.036307805477010027)).
Proof.
  assert (H : 0 < 1) by lra.
  split; [exact H | ].
  exact (proj2 (proj2 (STMag_call SI_constants 1 1)) H).
Defined.

(** * The change-of-base functions *)

Lemma not_missing_context (r : result R) :
  (exists x, r = Ok x) \/ r = Raise ZeroDivisionError ->
  ~ (exists e, is_missing_context e /\ r = Raise e).
Proof.
  intros [[x ->] | ->] [e [HM HR]].
  - discriminate.
  - injection HR as <-. destruct HM as [E | [E | E]]; discriminate.
Qed.

Lemma bind_float_div (x y : R) (k : R -> R) :
  (exists z, (q <- float_div x y ;; Ok (k q)) = Ok z) \/
  (q <- float_div x y ;; Ok (k q)) = Raise ZeroDivisionError.
Proof.
  destruct (float_div_cases x y) as [[z ->] | ->]; cbn [bind];
    [left; eauto | now right].
Qed.

Section Switch.

Variable K : Constants.

(** A keyword that is present: the function does not raise [MissingContext],
    and the keyword is one of those it requires. *)
Ltac present key :=
  split;
  [ intros H; exfalso; revert H; apply not_missing_context;
    first [ apply bind_float_div
          | left; eexists; reflexivity
          | apply float_div_cases ]
  | intros [_ H]; specialize (H key); cbn [In] in H;
    erewrite has_key_some in H by eassumption;
    exfalso; assert (true = false) by (apply H; tauto); discriminate ].

(** No required keyword is present: the function raises its message. *)
Ltac absent :=
  split;
  [ intros _; split; [discriminate | ];
    intros k Hk; cbn [In] in Hk;
    repeat (destruct Hk as [<- | Hk]; [apply has_key_none; assumption | ]);
    contradiction
  | intros _; eexists; split; [ | reflexivity];
    unfold is_missing_context; tauto ].

Lemma missing_context_iff (f : switch_fn) (arg : R) (kwargs : keywords) :
  (exists e, is_missing_context e /\ apply_switch K f arg kwargs = Raise e) <->
  (required_keywords f <> [] /\
   forall k, In k (required_keywords f) -> has_key k kwargs = false).
Proof.
  destruct f; cbn [apply_switch required_keywords];
    unfold distance2velocity, velocity2distance, distance2frequency,
      distance2spatialfreq, spatialfreq2distance, fnu2flambda, flambda2fnu,
      fnu2nufnu, nufnu2fnu, per_sr, times_sr, surface.
  3: { split.
       - intros H. exfalso. revert H. apply not_missing_context.
         apply float_div_cases.
       - intros [H _]. now contradiction H. }
  1-2: destruct (lookup "wave" kwargs) as [wave | ] eqn:W;
    [present "wave"%string | absent].
  1-6: destruct (lookup "wave" kwargs) as [wave | ] eqn:W;
    [present "wave"%string | ];
    destruct (lookup "freq" kwargs) as [freq | ] eqn:F;
    [present "freq"%string | absent].
  all: destruct (lookup "diam" kwargs) as [diam | ] eqn:D;
    [cbn [bind]; present "diam"%string | ];
    destruct (lookup "radius" kwargs) as [radius | ] eqn:R;
    [cbn [bind]; present "radius"%string | ];
    destruct (lookup "pix" kwargs) as [pix | ] eqn:P;
    [cbn [bind]; present "pix"%string | absent].
Qed.

(** C4: [convert('A','km/s',4553.0,wave=(4552.0,'A'))] is [cc/4552000],
    which for the speed of light of the doctests is [65.8595] to four
    decimals: [distance2velocity] computes [(value-wave)/wave * cc] on the SI
    values and the result is divided by the factor [1000] of [km/s].  Without
    [wave] the same call raises [MissingContext].  A change-of-base function
    raises [MissingContext] exactly when it requires keywords and none of
    them is present ([distance2frequency] requires none and never raises
    it). *)
Theorem convert_A_kms :
  convert K "A" "km/s" 4553 [("wave"%string, (4552, "A"%string))]
    = Ok (cc K / 4552000) /\
  (cc K = 299792458 ->
   exists v,
     convert K "A" "km/s" 4553 [("wave"%string, (4552, "A"%string))] = Ok v /\
     Rabs (v - 65.8595) < 1e-4) /\
  (forall arg wave kwargs,
     lookup "wave" kwargs = Some wave -> wave <> 0 ->
     distance2velocity K arg kwargs = Ok ((arg - wave) / wave * cc K)) /\
  (exists e,
     is_missing_context e /\ convert K "A" "km/s" 4553 [] = Raise e) /\
  (forall f arg kwargs,
     (exists e, is_missing_context e /\ apply_switch K f arg kwargs = Raise e)
     <->
     (required_keywords f <> [] /\
      forall k, In k (required_keywords f) -> has_key k kwargs = false)).
Proof.
  assert (E : convert K "A" "km/s" 4553 [("wave"%string, (4552, "A"%string))]
              = Ok (cc K / 4552000)).
  { py_run. same_number. field. }
  split; [exact E | ].
  split.
  { intros Hc. exists (cc K / 4552000). split; [exact E | ].
    rewrite Hc. apply Rabs_def1; lra. }
  split.
  { intros arg wave kwargs HW Hw. unfold distance2velocity. rewrite HW.
    rewrite float_div_nonzero by exact Hw. reflexivity. }
  split.
  { exists no_wave. split; [now left | ]. py_run. reflexivity. }
  exact missing_context_iff.
Qed.

End Switch.

(** C4 for the speed of light of the doctests *)
Lemma convert_A_kms_SI :
  exists v,
    convert SI_constants "A" "km/s" 4553 [("wave"%string, (4552, "A"%string))]
      = Ok v /\
    Rabs (v - 65.8595) < 1e-4.
Proof.
  apply (proj1 (proj2 (convert_A_kms SI_constants))).
  reflexivity.
Defined.

(** * The orchestrator *)

Section Convert.

Variable K : Constants.

(** [convert] on two units of different signatures, neither side being [SI]:
    the two tests on [sr-1], the lookup in [_switch], the source factor, the
    function and the target factor, in this order. *)
Lemma convert_by_switch (_from _to : string) (arg : R)
  (kwargs : list (string * (R * string)))
  (fac_from fac_to : pyval) (uni_from uni_to : string) (kwargs_SI : keywords) :
  breakdown K _from = Ok (fac_from, uni_from) ->
  _to <> "SI"%string ->
  breakdown K _to = Ok (fac_to, uni_to) ->
  keywords_SI K kwargs = Ok kwargs_SI ->
  uni_from <> uni_to ->
  convert K _from _to arg kwargs =
    (' (arg', only_to) <-
       peel_sr K "_to_sr-1" arg
         (String.concat ""
            (sorted_difference (split_ws uni_to) (split_ws uni_from)))
         kwargs_SI ;;
     ' (arg'', only_from) <-
       peel_sr K "sr-1_to_" arg'
         (String.concat ""
            (sorted_difference (split_ws uni_from) (split_ws uni_to)))
         kwargs_SI ;;
     f <- switch (only_from ++ "_to_" ++ only_to) ;;
     x <- from_factor fac_from arg'' ;;
     v <- apply_switch K f x kwargs_SI ;;
     to_factor fac_to (1 * v)).
Proof.
  intros HF HSI HT HK HN.
  unfold convert. rewrite HF. cbn [bind].
  apply String.eqb_neq in HSI. rewrite HSI. cbn [negb].
  rewrite HT. cbn [bind]. rewrite HK. cbn [bind].
  apply String.eqb_neq in HN. rewrite HN.
  destruct (peel_sr K "_to_sr-1" arg _ kwargs_SI) as [[a1 o1] | e1];
    cbn [bind]; [ | reflexivity].
  destruct (peel_sr K "sr-1_to_" a1 _ kwargs_SI) as [[a2 o2] | e2];
    cbn [bind]; [ | reflexivity].
  destruct (switch _) as [f | e3]; cbn [bind]; [ | reflexivity].
  destruct (from_factor fac_from a2) as [x | e4]; cbn [bind]; [ | reflexivity].
  destruct (apply_switch K f x kwargs_SI) as [v | e5]; cbn [bind]; reflexivity.
Qed.

(** C8: when the two signatures differ and the sorted difference on the
    target side ends in [sr-1], [convert] applies [per_sr] to the value, cuts
    the [sr-1] off and only then looks the remaining difference up in
    [_switch], whose function is applied next; when the difference on the
    source side ends in [sr-1] it does the same with [times_sr].  One call so
    composes the solid-angle step with another change-of-base step. *)
Theorem convert_peels_sr (_from _to : string) (arg : R)
  (kwargs : list (string * (R * string)))
  (fac_from fac_to : pyval) (uni_from uni_to : string) (kwargs_SI : keywords) :
  breakdown K _from = Ok (fac_from, uni_from) ->
  _to <> "SI"%string ->
  breakdown K _to = Ok (fac_to, uni_to) ->
  keywords_SI K kwargs = Ok kwargs_SI ->
  uni_from <> uni_to ->
  let only_from :=
    String.concat "" (sorted_difference (split_ws uni_from) (split_ws uni_to)) in
  let only_to :=
    String.concat "" (sorted_difference (split_ws uni_to) (split_ws uni_from)) in
  (take_last 4 only_to = "sr-1"%string ->
   take_last 4 only_from <> "sr-1"%string ->
   convert K _from _to arg kwargs =
     (a <- per_sr arg kwargs_SI ;;
      f <- switch (only_from ++ "_to_" ++ drop_last 4 only_to) ;;
      x <- from_factor fac_from a ;;
      v <- apply_switch K f x kwargs_SI ;;
      to_factor fac_to (1 * v)))
  /\
  (take_last 4 only_to <> "sr-1"%string ->
   take_last 4 only_from = "sr-1"%string ->
   convert K _from _to arg kwargs =
     (a <- times_sr arg kwargs_SI ;;
      f <- switch (drop_last 4 only_from ++ "_to_" ++ only_to) ;;
      x <- from_factor fac_from a ;;
      v <- apply_switch K f x kwargs_SI ;;
      to_factor fac_to (1 * v))).
Proof.
  intros HF HSI HT HK HN only_from only_to.
  rewrite (convert_by_switch _ _ arg _ _ _ _ _ _ HF HSI HT HK HN).
  fold only_from only_to. unfold peel_sr. split; intros H1 H2.
  - rewrite H1. apply String.eqb_neq in H2. rewrite H2.
    change (switch "_to_sr-1") with (Ok Per_sr). cbn [bind apply_switch].
    destruct (per_sr arg kwargs_SI) as [a | e]; reflexivity.
  - rewrite H2. apply String.eqb_neq in H1. rewrite H1.
    change (switch "sr-1_to_") with (Ok Times_sr). cbn [bind apply_switch].
    destruct (times_sr arg kwargs_SI) as [a | e]; reflexivity.
Qed.

(** C10, amended: for a unit whose breakdown factor is a scalar other than
    zero, [convert(U, U, x)] is [x], without any keyword. *)
Theorem convert_identity (U : string) (f : R) (s : string) (x : R) :
  breakdown K U = Ok (Num f, s) -> f <> 0 -> convert K U U x [] = Ok x.
Proof.
  intros HB Hf. unfold convert. rewrite HB. cbn [bind].
  destruct (String.eqb_spec U "SI") as [-> | _].
  - rewrite breakdown_SI in HB. discriminate.
  - cbn [negb bind keywords_SI].
    rewrite String.eqb_refl. cbn [from_factor mul_float bind to_factor].
    rewrite float_div_nonzero by exact Hf. f_equal. field. exact Hf.
Qed.

(** X3: two units of one signature, with scalar factors other than zero: the
    conversion back undoes the conversion. *)
Lemma roundtrip_same_signature (A B : string) (fa fb : R) (s : string) (x : R) :
  breakdown K A = Ok (Num fa, s) -> breakdown K B = Ok (Num fb, s) ->
  fa <> 0 -> fb <> 0 ->
  roundtrip K A B x [] = Ok x.
Proof.
  intros HA HB Ha Hb.
  assert (NA : (A =? "SI")%string = false).
  { apply String.eqb_neq. intros ->. rewrite breakdown_SI in HA. discriminate. }
  assert (NB : (B =? "SI")%string = false).
  { apply String.eqb_neq. intros ->. rewrite breakdown_SI in HB. discriminate. }
  unfold roundtrip, convert. rewrite HA, HB, NA, NB.
  cbn [negb bind keywords_SI]. rewrite String.eqb_refl.
  cbn [from_factor mul_float bind to_factor].
  rewrite float_div_nonzero by exact Hb. cbn [bind].
  rewrite float_div_nonzero by exact Ha. f_equal. field. now split.
Qed.

(** X22: the spatial-frequency pair under a reference wavelength: the
    conversion back undoes the conversion. *)
Lemma roundtrip_spatialfreq_wave (x wave : R) :
  wave <> 0 ->
  roundtrip K "m" "cy/arcsec" x [("wave"%string, (wave, "m"%string))] = Ok x.
Proof.
  intros Hw. unfold roundtrip.
  assert (F : convert K "m" "cy/arcsec" x [("wave"%string, (wave, "m"%string))]
              = Ok (2 * PI * x / wave / 1296000)).
  { py_run. same_number. field. exact Hw. }
  rewrite F. cbn [bind]. py_run. same_number. field.
  split; [exact Hw | apply PI_neq0].
Qed.

(** C1: under a reference frequency the spatial-frequency pair does not
    round-trip.  [convert('m','cy/arcsec',x,freq=...)] goes through
    [distance2spatialfreq], which computes [2*pi*x*cc*freq], and the
    conversion back through [spatialfreq2distance], which computes
    [cc/freq*y/(2*pi)]: the round trip returns [cc*cc*x], not [x]. *)
Theorem roundtrip_spatialfreq_freq (x freq : R) :
  freq <> 0 ->
  roundtrip K "m" "cy/arcsec" x [("freq"%string, (freq, "hz"%string))]
    = Ok (cc K * cc K * x).
Proof.
  intros Hf. unfold roundtrip.
  assert (F : convert K "m" "cy/arcsec" x [("freq"%string, (freq, "hz"%string))]
              = Ok (2 * PI * x * cc K * freq / 1296000)).
  { py_run. same_number. field. }
  rewrite F. cbn [bind]. py_run. same_number. field.
  split; [exact Hf | apply PI_neq0].
Qed.

End Convert.

(** C1 for the metre and one hertz: the round trip of [1.0] returns the
    square of the speed of light. *)
Lemma roundtrip_spatialfreq_freq_SI :
  roundtrip SI_constants "m" "cy/arcsec" 1 [("freq"%string, (1, "hz"%string))]
    = Ok (299792458 * 299792458 * 1).
Proof.
  apply (roundtrip_spatialfreq_freq SI_constants 1 1).
  lra.
Defined.

(** C8 on a doctest of [convert]: from jansky to a flux per micron and per
    steradian, [per_sr] with the diameter and then [fnu2flambda] with the
    wavelength. *)
Lemma convert_peels_sr_Jy :
  convert SI_constants "Jy" "erg/s/cm2/micron/sr" 1
    [("wave"%string, (2, "micron"%string)); ("diam"%string, (3, "mas"%string))]
  = Ok (299792458 / (2e-6 ^ 2)
        * (1e-26 * (1 / (PI * (2 * PI * (3e-3 / 1296000 / 2)) ^ 2)))
        / 1e3).
Proof.
  edestruct (convert_peels_sr SI_constants "Jy" "erg/s/cm2/micron/sr" 1
               [("wave"%string, (2, "micron"%string));
                ("diam"%string, (3, "mas"%string))]) as [H _].
  - py_run. reflexivity.
  - discriminate.
  - py_run. reflexivity.
  - py_run. reflexivity.
  - discriminate.
  - rewrite H by (try reflexivity; discriminate). clear H.
    py_run. cbn [cc SI_constants]. same_number. field. apply PI_neq0.
Defined.

(** C10 as stated fails: the unit [0m] has the scalar factor [0], and
    [convert('0m','0m',1.0)] ends in a division by it. *)
Lemma convert_identity_zero_factor :
  ~ (forall (K : Constants) (U : string) (f : R) (s : string) (x : R),
        breakdown K U = Ok (Num f, s) -> convert K U U x [] = Ok x).
Proof.
  intros H.
  assert (B : breakdown SI_constants "0m" = Ok (Num 0, "m1"%string)).
  { py_run. same_number. lra. }
  specialize (H SI_constants "0m"%string 0 "m1"%string 1 B).
  assert (C : convert SI_constants "0m" "0m" 1 [] = Raise ZeroDivisionError).
  { py_run. reflexivity. }
  rewrite C in H. discriminate.
Qed.

(** C10, amended, on the kilometre *)
Lemma convert_identity_km : convert SI_constants "km" "km" 5 [] = Ok 5.
Proof.
  apply (convert_identity SI_constants "km" (1 * powerRZ (1 * 1e3 * 1) 1) "m1").
  - py_run. reflexivity.
  - simpl. lra.
Defined.

(** * Further properties of the engine and of its neighbours *)

Open Scope string_scope.

Lemma isdigit_cases (c : ascii) :
  isdigit c = true ->
  (c = "0" \/ c = "1" \/ c = "2" \/ c = "3" \/ c = "4" \/
   c = "5" \/ c = "6" \/ c = "7" \/ c = "8" \/ c = "9")%char.
Proof.
  destruct c as [[] [] [] [] [] [] [] []]; intros H;
    try discriminate H; tauto.
Qed.

Lemma all_chars_app (P : ascii -> bool) (s t : string) :
  all_chars P (s ++ t) = all_chars P s && all_chars P t.
Proof.
  induction s as [ | c s IH]; simpl; [reflexivity | ].
  now rewrite IH, andb_assoc.
Qed.

Lemma string_of_uint_digits (d : Decimal.uint) :
  all_chars isdigit (NilEmpty.string_of_uint d) = true.
Proof. induction d; simpl; auto. Qed.

Lemma string_of_uint_nonempty (d : Decimal.uint) :
  exists c s, NilZero.string_of_uint d = String c s /\ isdigit c = true /\
              all_chars isdigit s = true.
Proof.
  destruct d; simpl; eexists; eexists; (split; [reflexivity | ]);
    (split; [reflexivity | ]); try reflexivity; apply string_of_uint_digits.
Qed.

Lemma digits_value_from_pos (d : Decimal.uint) (acc : positive) :
  digits_value_from (Z.pos acc) (NilEmpty.string_of_uint d)
  = Z.pos (Pos.of_uint_acc d acc).
Proof.
  revert acc. induction d; intros acc;
    cbn [NilEmpty.string_of_uint digits_value_from Pos.of_uint_acc];
    [reflexivity | ..];
    rewrite <- IHd; f_equal; unfold digit_value.
  all: vm_compute N_of_ascii; lia.
Qed.

Lemma digits_value_from_zero (d : Decimal.uint) :
  digits_value_from 0 (NilEmpty.string_of_uint d) = Z.of_N (Pos.of_uint d).
Proof.
  induction d; simpl; [reflexivity | exact IHd | ..];
    apply (digits_value_from_pos d).
Qed.

Lemma digits_value_uint (d : Decimal.uint) :
  digits_value (NilZero.string_of_uint d) = Z.of_uint d.
Proof.
  unfold digits_value, Z.of_uint.
  destruct d; try apply (digits_value_from_zero (_ d)); reflexivity.
Qed.

Lemma int_of_string_digit (c : ascii) (s : string) :
  isdigit c = true -> int_of_string (String c s) = digits_value (String c s).
Proof.
  intros H. destruct (isdigit_cases c H) as [-> | [-> | [-> | [-> | [-> | [-> | [-> | [-> | [-> | ->]]]]]]]]];
    reflexivity.
Qed.

Theorem int_of_string_of_int (n : Z) : int_of_string (string_of_int n) = n.
Proof.
  unfold string_of_int. rewrite <- (DecimalZ.of_to n) at 2.
  destruct (Z.to_int n) as [d | d]; cbn [NilZero.string_of_int Z.of_int].
  - destruct (string_of_uint_nonempty d) as [c [s [E [Hc _]]]].
    rewrite E, int_of_string_digit by exact Hc. rewrite <- E.
    apply digits_value_uint.
  - cbn [int_of_string]. now rewrite digits_value_uint.
Qed.

Lemma span_digits_all (s : string) :
  all_chars isdigit s = true -> span_digits s = (s, "").
Proof.
  induction s as [ | c s IH]; simpl; [reflexivity | ].
  intros H. apply andb_prop in H. destruct H as [Hc Hs].
  now rewrite Hc, (IH Hs).
Qed.

Lemma match_power_digits (c : ascii) (s : string) :
  isdigit c = true -> all_chars isdigit s = true ->
  match_power (String c s) = Some (String c s).
Proof.
  intros Hc Hs.
  assert (E : span_digits (String c s) = (String c s, "")).
  { apply span_digits_all. simpl. now rewrite Hc, Hs. }
  destruct (isdigit_cases c Hc) as [-> | [-> | [-> | [-> | [-> | [-> | [-> | [-> | [-> | ->]]]]]]]]];
    unfold match_power; rewrite E; reflexivity.
Qed.

Lemma match_power_signed (c : ascii) (s : string) :
  isdigit c = true -> all_chars isdigit s = true ->
  match_power (String "-" (String c s)) = Some (String "-" (String c s)).
Proof.
  intros Hc Hs.
  assert (E : span_digits (String c s) = (String c s, "")).
  { apply span_digits_all. simpl. now rewrite Hc, Hs. }
  unfold match_power. rewrite E. reflexivity.
Qed.

Lemma match_power_basis_char (c : ascii) (s : string) :
  basis_char c = true -> match_power (String c s) = None.
Proof.
  destruct c as [[] [] [] [] [] [] [] []]; intros H; try discriminate H;
    reflexivity.
Qed.

Lemma match_power_numeral (s : string) :
  is_numeral s = true -> match_power s = Some s.
Proof.
  destruct s as [ | c s]; [discriminate | ].
  destruct (Ascii.eqb_spec c "-") as [-> | N].
  - destruct s as [ | c' s]; [discriminate | ].
    cbn [is_numeral]. intros H. apply andb_prop in H.
    now apply match_power_signed.
  - intros H.
    assert (H' : isdigit c && all_chars isdigit s = true).
    { revert H N. destruct c as [[] [] [] [] [] [] [] []]; simpl; intros H N;
        try exact H; try discriminate H. now contradiction N. }
    apply andb_prop in H'. now apply match_power_digits.
Qed.

Lemma is_numeral_string_of_int (n : Z) : is_numeral (string_of_int n) = true.
Proof.
  unfold string_of_int.
  destruct (Z.to_int n) as [d | d]; cbn [NilZero.string_of_int];
    destruct (string_of_uint_nonempty d) as [c [s [-> [Hc Hs]]]].
  - destruct (isdigit_cases c Hc) as [-> | [-> | [-> | [-> | [-> | [-> | [-> | [-> | [-> | ->]]]]]]]]];
      exact Hs.
  - cbn [is_numeral]. now rewrite Hc, Hs.
Qed.

Lemma string_of_int_nonneg (n : Z) :
  (0 <= n)%Z ->
  all_chars isdigit (string_of_int n) = true /\
  digits_value (string_of_int n) = n /\
  is_empty (string_of_int n) = false.
Proof.
  intros Hn. unfold string_of_int.
  assert (E : exists d, Z.to_int n = Decimal.Pos d).
  { destruct n; simpl; eauto. lia. }
  destruct E as [d E]. rewrite E. cbn [NilZero.string_of_int].
  split; [ | split].
  - destruct (string_of_uint_nonempty d) as [c [s [-> [Hc Hs]]]].
    simpl. now rewrite Hc, Hs.
  - rewrite digits_value_uint.
    change (Z.of_uint d) with (Z.of_int (Decimal.Pos d)).
    rewrite <- E. apply DecimalZ.of_to.
  - destruct (string_of_uint_nonempty d) as [c [s [-> _]]]. reflexivity.
Qed.

Lemma last_char_app (s t : string) :
  t <> "" -> last_char (s ++ t) = last_char t.
Proof.
  intros Ht. induction s as [ | c s IH]; [reflexivity | ].
  change (String c s ++ t) with (String c (s ++ t)).
  cbn [last_char]. destruct (s ++ t) eqn:E; [ | exact IH].
  destruct s; [simpl in E; contradiction | discriminate].
Qed.

Lemma last_char_all (P : ascii -> bool) (c : ascii) (s : string) :
  all_chars P (String c s) = true ->
  exists d, last_char (String c s) = Some d /\ P d = true.
Proof.
  revert c. induction s as [ | c' s IH]; intros c H.
  - simpl in H. apply andb_prop in H. exists c. now split.
  - cbn [all_chars] in H. apply andb_prop in H. destruct H as [_ H].
    destruct (IH c' H) as [d [E Hd]]. exists d. split; [ | exact Hd].
    change (last_char (String c (String c' s))) with (last_char (String c' s)).
    exact E.
Qed.

Lemma last_char_numeral (s : string) :
  is_numeral s = true -> exists d, last_char s = Some d /\ isdigit d = true.
Proof.
  destruct s as [ | c s]; [discriminate | ].
  destruct (Ascii.eqb_spec c "-") as [-> | N].
  - destruct s as [ | c' s]; [discriminate | ].
    cbn [is_numeral]. intros H.
    change (last_char (String "-" (String c' s))) with (last_char (String c' s)).
    now apply last_char_all.
  - intros H. apply last_char_all.
    revert H N. destruct c as [[] [] [] [] [] [] [] []]; simpl; intros H N;
      try exact H; try discriminate H. now contradiction N.
Qed.

Lemma match_basis_clean (basis numeral : string) :
  basis <> "" -> all_chars basis_char basis = true ->
  is_numeral numeral = true ->
  match_basis (basis ++ numeral) = Some (basis, numeral).
Proof.
  intros HB HC HN. induction basis as [ | c b IH]; [contradiction | ].
  cbn [all_chars] in HC. apply andb_prop in HC. destruct HC as [Hc Hb].
  assert (NL : Ascii.eqb c "010" = false).
  { unfold basis_char in Hc. apply andb_prop in Hc. destruct Hc as [_ Hc].
    now apply negb_true_iff in Hc. }
  change (String c b ++ numeral) with (String c (b ++ numeral)).
  cbn [match_basis]. rewrite NL.
  destruct b as [ | c' b'].
  - change ("" ++ numeral) with numeral.
    now rewrite (match_power_numeral _ HN).
  - assert (E : match_basis (String c' b' ++ numeral) = Some (String c' b', numeral))
      by (apply IH; [discriminate | exact Hb]).
    cbn [all_chars] in Hb. apply andb_prop in Hb.
    change (String c' b' ++ numeral) with (String c' (b' ++ numeral)) in *.
    rewrite (match_power_basis_char c' _ (proj1 Hb)). now rewrite E.
Qed.

Lemma basis_char_not_digit (c : ascii) : basis_char c = true -> isdigit c = false.
Proof.
  unfold basis_char. intros H. apply andb_prop in H. destruct H as [H _].
  apply andb_prop in H. destruct H as [H _]. now apply negb_true_iff in H.
Qed.

Lemma match_at_clean (digits basis numeral : string) :
  all_chars isdigit digits = true ->
  basis <> "" -> all_chars basis_char basis = true ->
  is_numeral numeral = true ->
  match_at (digits ++ basis ++ numeral) = Some (digits, basis, numeral).
Proof.
  intros HD HB HC HN. induction digits as [ | c d IH].
  - change ("" ++ basis ++ numeral) with (basis ++ numeral).
    pose proof (match_basis_clean basis numeral HB HC HN) as E.
    destruct basis as [ | c b]; [contradiction | ].
    change (String c b ++ numeral) with (String c (b ++ numeral)) in *.
    cbn [all_chars] in HC. apply andb_prop in HC.
    cbn [match_at]. rewrite E.
    now rewrite (basis_char_not_digit c (proj1 HC)).
  - cbn [all_chars] in HD. apply andb_prop in HD. destruct HD as [Hc Hd].
    change (String c d ++ basis ++ numeral)
      with (String c (d ++ basis ++ numeral)).
    cbn [match_at]. now rewrite Hc, (IH Hd).
Qed.

Lemma re_search_clean (digits basis numeral : string) :
  all_chars isdigit digits = true ->
  basis <> "" -> all_chars basis_char basis = true ->
  is_numeral numeral = true ->
  re_search (digits ++ basis ++ numeral) = Some (digits, basis, numeral).
Proof.
  intros HD HB HC HN.
  pose proof (match_at_clean digits basis numeral HD HB HC HN) as E.
  destruct (digits ++ basis ++ numeral) as [ | c s] eqn:S.
  - destruct digits; [ | discriminate S]. destruct basis; [contradiction | discriminate S].
  - cbn [re_search]. now rewrite E.
Qed.

Lemma numeral_nonempty (s : string) : is_numeral s = true -> s <> "".
Proof. intros H ->. discriminate H. Qed.

Lemma token_parts_clean (digits basis numeral : string) :
  all_chars isdigit digits = true ->
  basis <> "" -> all_chars basis_char basis = true ->
  is_numeral numeral = true ->
  token_parts (digits ++ basis ++ numeral)
  = Ok (if is_empty digits then 1%Z else digits_value digits, basis,
        int_of_string numeral).
Proof.
  intros HD HB HC HN. unfold token_parts.
  destruct (last_char_numeral _ HN) as [l [HL Hl]].
  rewrite last_char_app.
  2:{ intros E. destruct basis; [contradiction | discriminate E]. }
  rewrite last_char_app by (now apply numeral_nonempty).
  rewrite HL, Hl. now rewrite (re_search_clean _ _ _ HD HB HC HN).
Qed.

(** what the tokens look like *)
Lemma token_parts_forms (factor : Z) (basis : string) (power : Z) :
  (0 <= factor)%Z ->
  basis <> "" -> all_chars basis_char basis = true ->
  token_parts (token factor basis power) = Ok (factor, basis, power) /\
  token_parts (basis ++ string_of_int power) = Ok (1%Z, basis, power) /\
  token_parts (string_of_int factor ++ basis) = Ok (factor, basis, 1%Z) /\
  token_parts basis = Ok (1%Z, basis, 1%Z).
Proof.
  intros HF HB HC.
  destruct (string_of_int_nonneg factor HF) as [FD [FV FE]].
  pose proof (is_numeral_string_of_int power) as PN.
  assert (L : exists l, last_char basis = Some l /\ isdigit l = false).
  { destruct basis as [ | c b]; [contradiction | ].
    destruct (last_char_all _ _ _ HC) as [l [E Hl]]. exists l.
    split; [exact E | now apply basis_char_not_digit]. }
  destruct L as [l [LE Ll]].
  split; [ | split; [ | split]].
  - unfold token. rewrite (token_parts_clean _ _ _ FD HB HC PN).
    now rewrite FE, FV, int_of_string_of_int.
  - pose proof (token_parts_clean "" _ _ eq_refl HB HC PN) as E.
    change ("" ++ basis ++ string_of_int power)
      with (basis ++ string_of_int power) in E.
    rewrite E. cbn [is_empty]. now rewrite int_of_string_of_int.
  - unfold token_parts. rewrite last_char_app by exact HB. rewrite LE, Ll.
    change (((string_of_int factor ++ basis) ++ "1"))
      with ((string_of_int factor ++ basis) ++ "1").
    replace ((string_of_int factor ++ basis) ++ "1")
      with (string_of_int factor ++ basis ++ "1").
    + rewrite (re_search_clean _ _ "1" FD HB HC eq_refl). now rewrite FE, FV.
    + clear. induction (string_of_int factor) as [ | c s IH]; simpl; [reflexivity | now rewrite IH].
  - unfold token_parts. rewrite LE, Ll.
    pose proof (re_search_clean "" _ "1" eq_refl HB HC eq_refl) as E.
    change ("" ++ basis ++ "1") with (basis ++ "1") in E.
    now rewrite E.
Qed.

(** X13: the opening lines of [components] read a token written as a
    non-negative factor, a basis and a power back as these three, for a
    non-empty basis free of digits, minus signs and newlines; without the
    power they read the power [1], without the factor the factor [1.]. *)
Theorem token_parts_token (factor : Z) (basis : string) (power : Z) :
  (0 <= factor)%Z ->
  basis <> "" -> all_chars basis_char basis = true ->
  token_parts (token factor basis power) = Ok (factor, basis, power) /\
  token_parts (basis ++ string_of_int power) = Ok (1%Z, basis, power) /\
  token_parts (string_of_int factor ++ basis) = Ok (factor, basis, 1%Z) /\
  token_parts basis = Ok (1%Z, basis, 1%Z).
Proof. exact (token_parts_forms factor basis power). Qed.

(** X14: the rewriting of a token after a division sign negates the power
    that [components] then reads, and keeps the factor and the basis; a
    token without power is read with the power [-1]. *)
Theorem negate_power_token (factor : Z) (basis : string) (power : Z) :
  (0 <= factor)%Z ->
  basis <> "" -> all_chars basis_char basis = true ->
  (s <- negate_power (token factor basis power) ;; token_parts s)
    = Ok (factor, basis, (- power)%Z) /\
  (s <- negate_power (basis ++ string_of_int power) ;; token_parts s)
    = Ok (1%Z, basis, (- power)%Z) /\
  (s <- negate_power basis ;; token_parts s) = Ok (1%Z, basis, (-1)%Z).
Proof.
  intros HF HB HC.
  destruct (token_parts_forms factor basis power HF HB HC) as [T1 [T2 [_ T4]]].
  unfold negate_power. rewrite T1, T2, T4. cbn [bind].
  split; [ | split].
  - destruct (Z.eqb_spec factor 1) as [-> | _].
    + apply (token_parts_forms 1 basis (- power) HF HB HC).
    + apply (token_parts_forms factor basis (- power) HF HB HC).
  - apply (token_parts_forms 1 basis (- power)); [lia | exact HB | exact HC].
  - apply (token_parts_forms 1 basis (- 1)); [lia | exact HB | exact HC].
Qed.

Lemma token_parts_raises (s : string) (e : exn) :
  token_parts s = Raise e -> e = IndexError /\ s = "".
Proof.
  unfold token_parts. destruct s as [ | c s].
  - intros H. now injection H as <-.
  - destruct (last_char_some c s) as [d ->].
    destruct (re_search _) as [[[f b] p] | ]; discriminate.
Qed.

Lemma negate_power_raises (s : string) (e : exn) :
  negate_power s = Raise e -> e = IndexError /\ s = "".
Proof.
  unfold negate_power.
  destruct (token_parts s) as [[[f b] p] | e'] eqn:E; cbn [bind]; [discriminate | ].
  intros H. injection H as <-. exact (token_parts_raises _ _ E).
Qed.

Lemma map_result_raises {A B : Type} (f : A -> result B) (l : list A) (e : exn) :
  map_result f l = Raise e -> exists a, In a l /\ f a = Raise e.
Proof.
  induction l as [ | a l IH]; simpl; [discriminate | ].
  destruct (f a) as [b | e'] eqn:E; cbn [bind].
  - destruct (map_result f l) as [bs | e''] eqn:M; cbn [bind]; [discriminate | ].
    intros H. injection H as ->. destruct (IH eq_refl) as [x [Hx Fx]].
    exists x. split; [now right | exact Fx].
  - intros H. injection H as ->. exists a. split; [now left | exact E].
Qed.

Lemma negate_after_first_raises (uni : list string) (e : exn) :
  negate_after_first uni = Raise e -> e = IndexError /\ In "" (tl uni).
Proof.
  destruct uni as [ | first rest]; simpl; [discriminate | ].
  destruct (map_result negate_power rest) as [r | e'] eqn:M; cbn [bind]; [discriminate | ].
  intros H. injection H as ->.
  destruct (map_result_raises _ _ _ M) as [a [Ha Fa]].
  destruct (negate_power_raises _ _ Fa) as [-> ->]. now split.
Qed.

Lemma solve_aliases_index_error (unit : string) (e : exn) :
  solve_aliases unit = Raise e -> e = IndexError.
Proof.
  unfold solve_aliases. cbv zeta. generalize (resolve_names unit). intros names.
  destruct (contains_char "/" names); [ | discriminate].
  destruct (map_result negate_after_first _) as [r | e'] eqn:M; cbn [bind];
    [discriminate | ].
  intros H. injection H as <-.
  destruct (map_result_raises _ _ _ M) as [uni [_ FU]].
  exact (proj1 (negate_after_first_raises _ _ FU)).
Qed.

(** X11: [solve_aliases] raises nothing but [IndexError], and it raises
    exactly when the unit, its names resolved, holds a division sign and one
    of its space-separated fields has nothing after a division sign. *)
Theorem solve_aliases_raises (unit : string) :
  (forall e, solve_aliases unit = Raise e -> e = IndexError) /\
  ((exists e, solve_aliases unit = Raise e) <->
   (contains_char "/" (resolve_names unit) = true /\
    exists field, In field (split_ws (resolve_names unit)) /\
                  In "" (tl (split_on "/" field)))).
Proof.
  unfold solve_aliases. cbv zeta. generalize (resolve_names unit). intros names.
  destruct (contains_char "/" names).
  2:{ split; [discriminate | ]. split; [intros [e H]; discriminate | intros [H _]; discriminate]. }
  destruct (map_result negate_after_first _) as [r | e] eqn:M; cbn [bind].
  - split; [discriminate | ]. split; [intros [e H]; discriminate | ].
    intros [_ [field [HF HI]]]. exfalso.
    assert (HM : In (split_on "/" field) (map (split_on "/") (split_ws names)))
      by now apply in_map.
    revert M HM HI. generalize (map (split_on "/") (split_ws names)).
    generalize (split_on "/" field). clear. intros uni l. revert r.
    induction l as [ | a l IH]; intros r M HM HI; [contradiction | ].
    simpl in M.
    destruct (negate_after_first a) as [b | e] eqn:E; cbn [bind] in M; [ | discriminate].
    destruct (map_result negate_after_first l) as [bs | e] eqn:M'; cbn [bind] in M; [ | discriminate].
    destruct HM as [-> | HM]; [ | exact (IH bs eq_refl HM HI)].
    destruct uni as [ | first rest]; [contradiction | ].
    simpl in E, HI.
    destruct (map_result negate_power rest) as [r' | e] eqn:R; cbn [bind] in E; [ | discriminate].
    clear - R HI. revert r' R. induction rest as [ | x rest IH]; intros r' R; [contradiction | ].
    simpl in R. destruct HI as [-> | HI].
    + discriminate R.
    + destruct (negate_power x); cbn [bind] in R; [ | discriminate].
      destruct (map_result negate_power rest) eqn:R'; cbn [bind] in R; [ | discriminate].
      exact (IH HI _ eq_refl).
  - destruct (map_result_raises _ _ _ M) as [uni [HU FU]].
    destruct (negate_after_first_raises _ _ FU) as [-> HI].
    apply in_map_iff in HU. destruct HU as [field [<- HF]].
    split; [intros e H; now injection H as <- | ].
    split; [ | intros _; eauto].
    intros _. split; [reflexivity | eauto].
Qed.

Section NoChar.
Variable sep : ascii.

Lemma contains_char_app (s t : string) :
  contains_char sep (s ++ t) = contains_char sep s || contains_char sep t.
Proof.
  induction s as [ | c s IH]; simpl; [reflexivity | ].
  now rewrite IH, orb_assoc.
Qed.

Lemma split_on_from_free (w s : string) (p : string) :
  contains_char sep w = false ->
  In p (split_on_from sep w s) -> contains_char sep p = false.
Proof.
  revert w. induction s as [ | c s IH]; intros w Hw; simpl.
  - intros [<- | []]. exact Hw.
  - destruct (Ascii.eqb c sep) eqn:E.
    + intros [<- | H]; [exact Hw | ]. now apply (IH "").
    + apply IH. unfold snoc. rewrite contains_char_app, Hw. simpl.
      now rewrite E.
Qed.

Lemma split_on_free (s p : string) :
  In p (split_on sep s) -> contains_char sep p = false.
Proof. now apply split_on_from_free. Qed.

Lemma match_basis_sub (r b p : string) :
  match_basis r = Some (b, p) ->
  contains_char sep r = false -> contains_char sep b = false.
Proof.
  revert b. induction r as [ | c r IH]; intros b; simpl; [discriminate | ].
  destruct (Ascii.eqb c "010"); [discriminate | ].
  destruct (match_power r) as [q | ].
  - intros H Hr. injection H as <- _. simpl. apply orb_false_elim in Hr.
    now rewrite (proj1 Hr).
  - destruct (match_basis r) as [[b' p'] | ]; [ | discriminate].
    intros H Hr. injection H as <- <-. apply orb_false_elim in Hr. simpl.
    now rewrite (proj1 Hr), (IH b' eq_refl (proj2 Hr)).
Qed.

Lemma match_at_sub (s f b p : string) :
  match_at s = Some (f, b, p) ->
  contains_char sep s = false -> contains_char sep b = false.
Proof.
  revert f. induction s as [ | c s IH]; intros f; [discriminate | ].
  cbn [match_at].
  assert (N : match match_basis (String c s) with
                  | Some (b0, p0) => Some ("", b0, p0)
                  | None => None
                  end = Some (f, b, p) ->
              contains_char sep (String c s) = false ->
              contains_char sep b = false).
  { destruct (match_basis (String c s)) as [[b0 p0] | ] eqn:E; [ | discriminate].
    intros H. injection H as _ <- _. exact (match_basis_sub _ _ _ E). }
  destruct (isdigit c); [ | exact N].
  destruct (match_at s) as [[[f' b'] p'] | ] eqn:E; [ | exact N].
  intros H Hs. injection H as _ <- <-. simpl in Hs. apply orb_false_elim in Hs.
  exact (IH f' eq_refl (proj2 Hs)).
Qed.

Lemma re_search_sub (s f b p : string) :
  re_search s = Some (f, b, p) ->
  contains_char sep s = false -> contains_char sep b = false.
Proof.
  induction s as [ | c s IH]; [discriminate | ].
  cbn [re_search]. destruct (match_at (String c s)) as [m | ] eqn:E.
  - intros H. injection H as ->. exact (match_at_sub _ _ _ _ E).
  - intros H Hs. simpl in Hs. apply orb_false_elim in Hs.
    exact (IH H (proj2 Hs)).
Qed.

End NoChar.

Lemma digits_no_slash (s : string) :
  all_chars isdigit s = true -> contains_char "/" s = false.
Proof.
  induction s as [ | c s IH]; simpl; [reflexivity | ].
  intros H. apply andb_prop in H. destruct H as [Hc Hs]. rewrite (IH Hs).
  destruct (isdigit_cases c Hc) as [-> | [-> | [-> | [-> | [-> | [-> | [-> | [-> | [-> | ->]]]]]]]]];
    reflexivity.
Qed.

Lemma string_of_int_no_slash (n : Z) : contains_char "/" (string_of_int n) = false.
Proof.
  unfold string_of_int.
  destruct (Z.to_int n) as [d | d]; cbn [NilZero.string_of_int];
    destruct (string_of_uint_nonempty d) as [c [s [-> [Hc Hs]]]];
    cbn [contains_char]; change (Ascii.eqb "-" "/") with false; cbn [orb];
    apply (digits_no_slash (String c s)); simpl; now rewrite Hc, Hs.
Qed.

Lemma token_parts_no_slash (s : string) (f : Z) (b : string) (p : Z) :
  token_parts s = Ok (f, b, p) ->
  contains_char "/" s = false -> contains_char "/" b = false.
Proof.
  unfold token_parts. destruct (last_char s) as [c | ]; [ | discriminate].
  intros H Hs.
  assert (Hu : contains_char "/" (if isdigit c then s else s ++ "1") = false).
  { destruct (isdigit c); [exact Hs | ]. now rewrite contains_char_app, Hs. }
  destruct (re_search _) as [[[f' b'] p'] | ] eqn:E.
  - injection H as _ <- _. exact (re_search_sub _ _ _ _ _ E Hu).
  - injection H as _ <- _. exact Hu.
Qed.

Lemma negate_power_no_slash (s r : string) :
  negate_power s = Ok r ->
  contains_char "/" s = false -> contains_char "/" r = false.
Proof.
  unfold negate_power.
  destruct (token_parts s) as [[[f b] p] | e] eqn:E; cbn [bind]; [ | discriminate].
  intros H Hs. injection H as <-.
  pose proof (token_parts_no_slash _ _ _ _ E Hs) as Hb.
  destruct (f =? 1)%Z;
    rewrite ?contains_char_app, Hb, ?string_of_int_no_slash; reflexivity.
Qed.

Lemma map_result_Forall {A B : Type} (f : A -> result B) (P : A -> Prop)
  (Q : B -> Prop) (l : list A) (bs : list B) :
  (forall a b, P a -> f a = Ok b -> Q b) ->
  Forall P l -> map_result f l = Ok bs -> Forall Q bs.
Proof.
  intros HPQ HF. revert bs. induction HF as [ | a l Ha _ IH]; intros bs; simpl.
  - intros H. injection H as <-. constructor.
  - destruct (f a) as [b | e] eqn:E; cbn [bind]; [ | discriminate].
    destruct (map_result f l) as [bs' | e]; cbn [bind]; [ | discriminate].
    intros H. injection H as <-. constructor; [exact (HPQ _ _ Ha E) | now apply IH].
Qed.

Lemma concat_space_slash_free (l : list string) :
  Forall slash_free l -> slash_free (String.concat " " l).
Proof.
  unfold slash_free. induction 1 as [ | x l Hx _ IH]; [reflexivity | ].
  destruct l as [ | y l]; [exact Hx | ].
  change (String.concat " " (x :: y :: l)) with (x ++ " " ++ String.concat " " (y :: l)).
  now rewrite !contains_char_app, Hx, IH.
Qed.

(** X12: what [solve_aliases] returns holds no division sign. *)
Theorem solve_aliases_no_slash (unit resolved : string) :
  solve_aliases unit = Ok resolved -> contains_char "/" resolved = false.
Proof.
  unfold solve_aliases. cbv zeta. generalize (resolve_names unit). intros names.
  destruct (contains_char "/" names) eqn:C.
  2:{ intros H. now injection H as <-. }
  destruct (map_result negate_after_first _) as [r | e] eqn:M; cbn [bind]; [ | discriminate].
  intros H. injection H as <-. apply concat_space_slash_free.
  apply Forall_concat.
  apply (map_result_Forall negate_after_first (Forall slash_free) (Forall slash_free) _ _) in M;
    [exact M | | ].
  - intros uni b HU. destruct uni as [ | first rest]; simpl.
    + intros H. injection H as <-. constructor.
    + destruct (map_result negate_power rest) as [r' | e] eqn:R; cbn [bind]; [ | discriminate].
      intros H. injection H as <-. inversion HU as [ | ? ? H1 H2]; subst.
      constructor; [exact H1 | ].
      exact (map_result_Forall negate_power slash_free slash_free _ _
               (fun a b Ha E => negate_power_no_slash a b E Ha) H2 R).
  - apply Forall_forall. intros uni HU. apply in_map_iff in HU.
    destruct HU as [field [<- _]]. apply Forall_forall. intros p Hp.
    exact (split_on_free _ _ _ Hp).
Qed.

Lemma prefix_empty (s : string) : String.prefix "" s = true.
Proof. destruct s; reflexivity. Qed.

Section Replace.
Variables (c : ascii) (rep : string).
Hypothesis rep_free : contains_char c rep = false.

Lemma replace_from_removes (skip : nat) (s : string) :
  contains_char c (replace_from (String c "") rep skip s) = false.
Proof.
  revert skip. induction s as [ | d s IH]; intros skip; [reflexivity | ].
  cbn [replace_from]. destruct skip as [ | k]; [ | apply IH].
  cbn [String.prefix]. destruct (Ascii.ascii_dec c d) as [E | N].
  - rewrite prefix_empty. cbn [String.length Nat.sub].
    rewrite contains_char_app, rep_free, IH. reflexivity.
  - cbn [contains_char]. rewrite IH.
    destruct (Ascii.eqb_spec d c) as [-> | _]; [now contradiction N | reflexivity].
Qed.

Lemma replace_from_keeps_free (pat : string) (x : ascii) (skip : nat) (s : string) :
  contains_char x rep = false -> contains_char x s = false ->
  contains_char x (replace_from pat rep skip s) = false.
Proof.
  intros Hr. revert skip. induction s as [ | d s IH]; intros skip Hs; [reflexivity | ].
  cbn [contains_char] in Hs. apply orb_false_elim in Hs. destruct Hs as [Hd Hs].
  cbn [replace_from]. destruct skip as [ | k]; [ | now apply IH].
  destruct (String.prefix pat (String d s)).
  - rewrite contains_char_app, Hr. now apply IH.
  - cbn [contains_char]. rewrite Hd. now apply IH.
Qed.
End Replace.

Lemma replace_head (c p : ascii) (rep s : string) :
  c <> p ->
  replace (String p "") rep (String c s)
  = String c (replace (String p "") rep s).
Proof.
  intros N. unfold replace. cbn [replace_from String.prefix].
  destruct (Ascii.ascii_dec p c) as [E | _]; [now contradiction N; symmetry | reflexivity].
Qed.

Lemma hip_line_written (line w : string) :
  contains_char "010" line = false ->
  hip_line line = Some w -> hip_written_line w.
Proof.
  intros HL. unfold hip_line.
  destruct (is_empty line) eqn:E; [discriminate | ].
  destruct (String.prefix "<" line); [discriminate | ].
  intros H. injection H as <-. eexists. split; [reflexivity | ].
  split; [ | split; [ | split]].
  - apply replace_from_keeps_free; [reflexivity | ].
    now apply replace_from_removes.
  - now apply replace_from_removes.
  - apply replace_from_keeps_free; [reflexivity | ].
    apply replace_from_keeps_free; [reflexivity | ].
    destruct (starts_with_digit line); [exact HL | ].
    change (contains_char "010" (String "#" (String " " line)) = false).
    exact HL.
  - destruct line as [ | c s]; [discriminate E | ].
    cbn [starts_with_digit]. destruct (isdigit c) eqn:D.
    + left.
      assert (N1 : c <> "|"%char) by (intros ->; discriminate D).
      assert (N2 : c <> "013"%char) by (intros ->; discriminate D).
      rewrite (replace_head c "|" " " s N1), (replace_head c "013" "" _ N2).
      exact D.
    + right.
      change ("# " ++ String c s) with (String "#" (String " " (String c s))).
      rewrite (replace_head "#" "|" " ") by discriminate.
      rewrite (replace_head " " "|" " ") by discriminate.
      rewrite (replace_head "#" "013" "") by discriminate.
      rewrite (replace_head " " "013" "") by discriminate.
      cbn [String.prefix]. 
      destruct (Ascii.ascii_dec "#" "#"); [ | contradiction].
      destruct (Ascii.ascii_dec " " " "); [ | contradiction].
      now destruct (replace _ _ _).
Qed.

Lemma hip_writes_written (lines : list string) :
  Forall (fun l => contains_char "010" l = false) lines ->
  Forall hip_written_line (hip_writes lines).
Proof.
  induction 1 as [ | line rest Hl _ IH]; simpl; [constructor | ].
  destruct (hip_line line) as [w | ] eqn:E; [ | exact IH].
  constructor; [exact (hip_line_written _ _ Hl E) | exact IH].
Qed.

(** X25: [getHipData] writes only when the reason phrase is [OK], and every
    string it writes is one line, free of [|] and of carriage returns, that
    starts with a digit or with [# ]. *)
Theorem getHipData_written (reason contents : string) (written : list string) :
  getHipData reason contents = Some written ->
  reason = "OK" /\ Forall hip_written_line written.
Proof.
  unfold getHipData. destruct (String.eqb_spec reason "OK") as [-> | N];
    [ | discriminate].
  intros H. injection H as <-. split; [reflexivity | ].
  apply hip_writes_written. apply Forall_forall. intros l Hl.
  exact (split_on_free _ _ _ Hl).
Qed.

Open Scope R_scope.

Section A.
Variable K : Constants.

Ltac release := rewrite float_div_nonzero by (first [assumption | nonzero]).

(** X17: with a nonzero reference wavelength and speed of light,
    [velocity2distance] undoes [distance2velocity] and conversely. *)
Theorem velocity_distance_roundtrip (arg wave : R) (kwargs : keywords) :
  lookup "wave" kwargs = Some wave -> wave <> 0 -> cc K <> 0 ->
  (v <- distance2velocity K arg kwargs ;; velocity2distance K v kwargs) = Ok arg /\
  (d <- velocity2distance K arg kwargs ;; distance2velocity K d kwargs) = Ok arg.
Proof.
  intros HW Hw Hc. unfold distance2velocity, velocity2distance. rewrite HW.
  split; repeat (release; cbn [bind]); f_equal; field; auto.
Qed.

(** X18: [flambda2fnu] undoes [fnu2flambda] and conversely, under a nonzero
    reference wavelength as well as under a nonzero reference frequency. *)
Theorem flux_roundtrip (arg : R) (kwargs : keywords) :
  cc K <> 0 ->
  (forall wave, lookup "wave" kwargs = Some wave -> wave <> 0 ->
     (l <- fnu2flambda K arg kwargs ;; flambda2fnu K l kwargs) = Ok arg /\
     (n <- flambda2fnu K arg kwargs ;; fnu2flambda K n kwargs) = Ok arg) /\
  (forall freq, lookup "wave" kwargs = None ->
     lookup "freq" kwargs = Some freq -> freq <> 0 ->
     (l <- fnu2flambda K arg kwargs ;; flambda2fnu K l kwargs) = Ok arg /\
     (n <- flambda2fnu K arg kwargs ;; fnu2flambda K n kwargs) = Ok arg).
Proof.
  intros Hc. split.
  - intros wave HW Hw. unfold fnu2flambda, flambda2fnu. rewrite HW.
    assert (wave ^ 2 <> 0) by (apply pow_nonzero; exact Hw).
    split; repeat (release; cbn [bind]); f_equal; field; auto.
  - intros freq HW HF Hf. unfold fnu2flambda, flambda2fnu. rewrite HW, HF.
    assert (freq ^ 2 <> 0) by (apply pow_nonzero; exact Hf).
    split; repeat (release; cbn [bind]); f_equal; field; auto.
Qed.

(** X19: [nufnu2fnu] undoes [fnu2nufnu] and conversely, under a nonzero
    reference wavelength as well as under a nonzero reference frequency. *)
Theorem nufnu_roundtrip (arg : R) (kwargs : keywords) :
  cc K <> 0 ->
  (forall wave, lookup "wave" kwargs = Some wave -> wave <> 0 ->
     (y <- fnu2nufnu K arg kwargs ;; nufnu2fnu K y kwargs) = Ok arg /\
     (y <- nufnu2fnu K arg kwargs ;; fnu2nufnu K y kwargs) = Ok arg) /\
  (forall freq, lookup "wave" kwargs = None ->
     lookup "freq" kwargs = Some freq -> freq <> 0 ->
     (y <- fnu2nufnu K arg kwargs ;; nufnu2fnu K y kwargs) = Ok arg /\
     (y <- nufnu2fnu K arg kwargs ;; fnu2nufnu K y kwargs) = Ok arg).
Proof.
  intros Hc. split.
  - intros wave HW Hw. unfold fnu2nufnu, nufnu2fnu. rewrite HW.
    split; repeat (release; cbn [bind]); f_equal; field; auto.
  - intros freq HW HF Hf. unfold fnu2nufnu, nufnu2fnu. rewrite HW, HF.
    split; repeat (release; cbn [bind]); f_equal; field; auto.
Qed.

(** X20: [distance2frequency] applied twice to a nonzero value returns the
    value. *)
Theorem distance2frequency_involution (arg : R) (kwargs : keywords) :
  arg <> 0 -> cc K <> 0 ->
  (f <- distance2frequency K arg kwargs ;; distance2frequency K f kwargs) = Ok arg.
Proof.
  intros Ha Hc. unfold distance2frequency.
  release. cbn [bind].
  assert (cc K / arg <> 0).
  { unfold Rdiv. apply Rmult_integral_contrapositive_currified; [exact Hc | ].
    apply Rinv_neq_0_compat. exact Ha. }
  release. f_equal. field. auto.
Qed.

End A.

(** X21: where the angular surface is not zero, [times_sr] undoes [per_sr]
    and conversely. *)
Theorem sr_roundtrip (arg s : R) (kwargs : keywords) :
  surface kwargs = Ok s -> s <> 0 ->
  (q <- per_sr arg kwargs ;; times_sr q kwargs) = Ok arg /\
  (q <- times_sr arg kwargs ;; per_sr q kwargs) = Ok arg.
Proof.
  intros HS Hs. unfold per_sr, times_sr. rewrite HS. cbn [bind].
  rewrite !float_div_nonzero by exact Hs. cbn [bind].
  split; f_equal; field; exact Hs.
Qed.

Lemma ln_10_neq_0 : ln 10 <> 0.
Proof.
  apply Rgt_not_eq. rewrite <- ln_1. apply ln_increasing; lra.
Qed.

Lemma log10_Rpower (x : R) : log10 (Rpower 10 x) = x.
Proof.
  unfold log10, Rpower. rewrite ln_exp. field. exact ln_10_neq_0.
Qed.

Lemma Rpower_log10 (x : R) : 0 < x -> Rpower 10 (log10 x) = x.
Proof.
  intros Hx. unfold log10, Rpower.
  replace (ln x / ln 10 * ln 10) with (ln x) by (field; exact ln_10_neq_0).
  now apply exp_ln.
Qed.

Lemma call_roundtrip (cls : converter) (prefix v : R) :
  prefix <> 0 ->
  (y <- call cls prefix v false ;; call cls prefix y true)
    = Ok (match cls with STMag => - v | _ => v end).
Proof.
  intros Hp. destruct cls; cbn [call negb bind].
  - rewrite float_div_nonzero by exact Hp. f_equal. field. exact Hp.
  - rewrite float_div_nonzero by exact Hp. f_equal. field. exact Hp.
  - f_equal. unfold F0_Vega.
    replace (Rpower 10 (- v / 2.5) * 1e-09 / 1e-09) with (Rpower 10 (- v / 2.5)) by (field; lra).
    rewrite log10_Rpower. lra.
  - f_equal. unfold F0_AB.
    replace (Rpower 10 (- v / 2.5) * 3.6307805477010024e-23 / 3.6307805477010024e-23)
      with (Rpower 10 (- v / 2.5)) by lra.
    rewrite log10_Rpower. lra.
  - f_equal. unfold F0_ST.
    replace (Rpower 10 (- v / - 2.5) * 0.036307805477010027 / 0.036307805477010027)
      with (Rpower 10 (- v / - 2.5)) by lra.
    rewrite log10_Rpower. lra.
Qed.

(** X23: with a nonzero prefix, a converter applied forward and then in the
    inverse direction returns its argument, except the ST magnitude, which
    returns the argument negated; applied to a positive value in the inverse
    direction and then forward it returns the value, except the ST
    magnitude, which returns [F0*F0/v]. *)
Theorem converter_roundtrip (cls : converter) (prefix v : R) :
  prefix <> 0 ->
  (y <- call cls prefix v false ;; call cls prefix y true)
    = Ok (match cls with STMag => - v | _ => v end) /\
  (0 < v ->
   (y <- call cls prefix v true ;; call cls prefix y false)
     = Ok (match cls with STMag => F0_ST * F0_ST / v | _ => v end)).
Proof.
  intros Hp. split; [exact (call_roundtrip cls prefix v Hp) | ].
  intros Hv. destruct cls; cbn [call negb bind].
  - rewrite float_div_nonzero by exact Hp. cbn [bind]. f_equal. field. exact Hp.
  - rewrite float_div_nonzero by exact Hp. cbn [bind]. f_equal. field. exact Hp.
  - f_equal. unfold F0_Vega.
    replace (- (-2.5 * log10 (v / 1e-09)) / 2.5) with (log10 (v / 1e-09)) by lra.
    rewrite Rpower_log10 by (apply Rdiv_lt_0_compat; lra). lra.
  - f_equal. unfold F0_AB.
    replace (- (-2.5 * log10 (v / 3.6307805477010024e-23)) / 2.5)
      with (log10 (v / 3.6307805477010024e-23)) by lra.
    rewrite Rpower_log10 by (apply Rdiv_lt_0_compat; lra). lra.
  - f_equal. unfold F0_ST.
    replace (- (-2.5 * log10 (v / 0.036307805477010027)) / -2.5)
      with (- log10 (v / 0.036307805477010027)) by lra.
    rewrite Rpower_Ropp.
    rewrite Rpower_log10 by (apply Rdiv_lt_0_compat; lra).
    field. lra.
Qed.

Section B.
Variable K : Constants.

(** X24: between Celsius, Fahrenheit and kelvin [convert] computes the
    usual formulas, for every value. *)
Theorem temperature_conversions (v : R) :
  convert K "C" "K" v [] = Ok (v + 273.15) /\
  convert K "K" "C" v [] = Ok (v - 273.15) /\
  convert K "C" "F" v [] = Ok (v * 9 / 5 + 32) /\
  convert K "F" "C" v [] = Ok ((v - 32) * 5 / 9) /\
  convert K "F" "K" v [] = Ok ((v + 459.67) * 5 / 9) /\
  convert K "K" "F" v [] = Ok (v * 9 / 5 - 459.67).
Proof.
  repeat split; py_run; same_number; lra.
Qed.

End B.

Section D.
Variable K : Constants.

Lemma components_si (unit : string) (f : pyval) (si : string) (p : Z) :
  components K unit = Ok (f, si, p) ->
  exists key e, lookup key (_factors K) = Some (e, si).
Proof.
  unfold components.
  destruct (token_parts unit) as [[[d b] q] | e]; cbn [bind]; [ | discriminate].
  destruct (match strip_scale K _scalings b with
            | Some (value, base_unit) => Ok (IZR d * value, base_unit)
            | None => if has_key b (_factors K) then Ok (IZR d, b)
                      else Raise (unknown_unit b)
            end) as [[f' b'] | e]; cbn [bind]; [ | discriminate].
  destruct (lookup b' (_factors K)) as [[[r | cls] si'] | ] eqn:L;
    cbn [bind py_mul new_converter]; intros H; try discriminate H;
    injection H as _ <- _; eauto.
Qed.

Lemma factors_si (key : string) (e : entry) (si : string) :
  lookup key (_factors K) = Some (e, si) -> In si si_strings.
Proof.
  intros H. unfold _factors in H. cbn [lookup] in H.
  repeat match type of H with
         | (if String.eqb key ?k then _ else _) = _ =>
             destruct (String.eqb key k);
             [ injection H as _ <-; cbv; tauto | ]
         end.
  discriminate H.
Qed.

Lemma si_bases_ok (si : string) :
  In si si_strings -> Forall (base_ok K) (split_ws si).
Proof.
  intros H. cbv [si_strings In] in H.
  repeat (destruct H as [<- | H];
          [ repeat constructor;
            (eexists; eexists; eexists; split; [py_run; reflexivity | cbv; tauto])
          | ]).
  contradiction.
Qed.

Lemma index_none (x : string) (l : list string) :
  index x l = None -> ~ In x l.
Proof.
  induction l as [ | y l IH]; simpl; [tauto | ].
  destruct (String.eqb_spec x y) as [-> | N]; [discriminate | ].
  destruct (index x l); [discriminate | ].
  intros _ [E | HI]; [now apply N | now apply IH].
Qed.

Lemma add_at_length (i : nat) (d : Z) (l : list Z) :
  length (add_at i d l) = length l.
Proof.
  revert i. induction l as [ | p l IH]; intros [ | i]; simpl; auto.
Qed.

Lemma add_base_ok (power : Z) (t t' : totals) (base : string) :
  base_ok K base -> totals_ok t ->
  add_base K power t base = Ok t' -> totals_ok t'.
Proof.
  intros [f [b [p [HC HI]]]] [H1 [H2 H3]]. unfold add_base. rewrite HC.
  cbn [bind]. destruct (index b (total_units t)) eqn:E;
    intros H; injection H as <-; unfold totals_ok; cbn.
  - split; [exact H1 | split; [ | exact H3]]. now rewrite add_at_length.
  - split; [ | split].
    + apply NoDup_app; [exact H1 | repeat constructor; simpl; tauto | ].
      intros x Hx [<- | []]. exact (index_none _ _ E Hx).
    + rewrite !length_app. simpl. lia.
    + intros x Hx. apply in_app_or in Hx. destruct Hx as [Hx | [<- | []]];
        [now apply H3 | exact HI].
Qed.

Lemma fold_add_base_ok (power : Z) (bases : list string) (t t' : totals) :
  Forall (base_ok K) bases -> totals_ok t ->
  fold_result (add_base K power) bases t = Ok t' -> totals_ok t'.
Proof.
  intros HF. revert t. induction HF as [ | b bases Hb _ IH]; intros t Ht; simpl.
  - intros H. now injection H as <-.
  - destruct (add_base K power t b) as [t1 | e] eqn:E; cbn [bind]; [ | discriminate].
    apply IH. exact (add_base_ok _ _ _ _ Hb Ht E).
Qed.

Lemma add_unit_ok (t t' : totals) (unit : string) :
  totals_ok t -> add_unit K t unit = Ok t' -> totals_ok t'.
Proof.
  intros Ht. unfold add_unit.
  destruct (components K unit) as [[[f si] p] | e] eqn:HC; cbn [bind]; [ | discriminate].
  destruct (py_pow f p) as [r | e]; cbn [bind]; [ | discriminate].
  destruct (py_mul (total_factor t) r) as [tot | e]; cbn [bind]; [ | discriminate].
  apply fold_add_base_ok.
  - destruct (components_si _ _ _ _ HC) as [key [e HL]].
    apply si_bases_ok. exact (factors_si _ _ _ HL).
  - exact Ht.
Qed.

Lemma fold_add_unit_ok (units : list string) (t t' : totals) :
  totals_ok t -> fold_result (add_unit K) units t = Ok t' -> totals_ok t'.
Proof.
  revert t. induction units as [ | u units IH]; intros t Ht; simpl.
  - intros H. now injection H as <-.
  - destruct (add_unit K t u) as [t1 | e] eqn:E; cbn [bind]; [ | discriminate].
    apply IH. exact (add_unit_ok _ _ _ Ht E).
Qed.

(** X10: the signature that [breakdown] returns is built from a list of
    bases without repetition, each one of the six SI base symbols, and as
    many powers. *)
Theorem breakdown_SI_bases (unit : string) (fac : pyval) (sig : string) :
  breakdown K unit = Ok (fac, sig) ->
  exists units powers,
    sig = signature units powers /\
    NoDup units /\ length units = length powers /\ incl units SI_bases.
Proof.
  unfold breakdown.
  destruct (solve_aliases unit) as [u | e]; cbn [bind]; [ | discriminate].
  destruct (fold_result (add_unit K) (split_ws u) _) as [t | e] eqn:E;
    cbn [bind]; [ | discriminate].
  intros H. injection H as _ <-.
  apply fold_add_unit_ok in E.
  - destruct E as [H1 [H2 H3]]. eauto 6.
  - unfold totals_ok. cbn. split; [constructor | split; [reflexivity | ]].
    intros x [].
Qed.
End D.

Lemma split_ws_from_nonempty (w s x : string) :
  In x (split_ws_from w s) -> x <> "".
Proof.
  revert w. induction s as [ | c s IH]; intros w; simpl.
  - destruct w; simpl; [contradiction | ]. intros [<- | []]. discriminate.
  - destruct (isspace c).
    + destruct w; simpl; [apply IH | ].
      intros [<- | H]; [discriminate | exact (IH _ H)].
    + apply IH.
Qed.

Lemma split_ws_nonempty (s x : string) : In x (split_ws s) -> x <> "".
Proof. apply split_ws_from_nonempty. Qed.

Section F.
Variable K : Constants.

Lemma components_word_raises (w : string) (e : exn) :
  w <> "" -> components K w = Raise e -> is_unknown_unit e.
Proof.
  intros HW HC. destruct (token_parts_nonempty w HW) as [d [b [p HT]]].
  destruct (components_raises K w d b p HT) as [_ H].
  exists b. exact (H e HC).
Qed.

Lemma components_value (unit : string) (f : pyval) (si : string) (p : Z) :
  components K unit = Ok (f, si, p) -> f <> PyNone.
Proof.
  unfold components.
  destruct (token_parts unit) as [[[d b] q] | e]; cbn [bind]; [ | discriminate].
  destruct (match strip_scale K _scalings b with
            | Some (value, base_unit) => Ok (IZR d * value, base_unit)
            | None => if has_key b (_factors K) then Ok (IZR d, b)
                      else Raise (unknown_unit b)
            end) as [[f' b'] | e]; cbn [bind]; [ | discriminate].
  destruct (lookup b' (_factors K)) as [[[r | cls] si'] | ];
    cbn [bind py_mul new_converter]; intros H; try discriminate H;
    injection H as <- _ _; discriminate.
Qed.

Lemma fold_add_base_total (power : Z) (bases : list string) (t : totals) :
  Forall (base_ok K) bases ->
  exists t', fold_result (add_base K power) bases t = Ok t'.
Proof.
  intros HF. revert t. induction HF as [ | b bases [f [b' [p [HC _]]]] _ IH];
    intros t; simpl; [eauto | ].
  unfold add_base at 1. rewrite HC. cbn [bind].
  destruct (index b' (total_units t)); cbn [bind]; apply IH.
Qed.

Lemma fold_add_base_of_components (unit : string) (f : pyval) (si : string)
  (p power : Z) (t : totals) :
  components K unit = Ok (f, si, p) ->
  exists t', fold_result (add_base K power) (split_ws si) t = Ok t'.
Proof.
  intros HC. destruct (components_si K _ _ _ _ HC) as [key [en HL]].
  exact (fold_add_base_total power (split_ws si) t
           (si_bases_ok K _ (factors_si K _ _ _ HL))).
Qed.

(** Where a pass of the outer loop fails: in [components], or in the
    arithmetic on the factor. *)
Lemma add_unit_raises (t : totals) (w : string) (e : exn) :
  w <> "" -> add_unit K t w = Raise e ->
  (components K w = Raise e /\ is_unknown_unit e) \/
  e = ZeroDivisionError \/ e = TypeError.
Proof.
  intros HW. unfold add_unit.
  destruct (components K w) as [[[f si] p] | e'] eqn:HC; cbn [bind].
  2:{ intros H. injection H as <-. left. split; [reflexivity | ].
      exact (components_word_raises _ _ HW HC). }
  pose proof (components_value _ _ _ _ HC) as HV.
  destruct (py_pow f p) as [r | e'] eqn:HP; cbn [bind].
  2:{ intros H. injection H as <-. right. left.
      destruct f as [x | cls pr pw | ]; cbn [py_pow] in HP;
        [ | discriminate | contradiction].
      unfold float_pow in HP.
      destruct (p <? 0)%Z; [destruct (Req_dec_T x 0) | ]; cbn [bind] in HP;
        try discriminate. now injection HP as <-. }
  destruct (py_mul (total_factor t) r) as [tot | e'] eqn:HM; cbn [bind].
  2:{ intros H. injection H as <-. right. right.
      destruct (total_factor t), r; cbn [py_mul] in HM; try discriminate;
        now injection HM as <-. }
  destruct (fold_add_base_of_components w f si p p
              {| total_factor := tot; total_units := total_units t;
                 total_power := total_power t |} HC) as [t' ->].
  discriminate.
Qed.

Lemma fold_add_unit_raises (ws : list string) (t : totals) (e : exn) :
  Forall (fun w => w <> "") ws ->
  fold_result (add_unit K) ws t = Raise e ->
  (exists w, In w ws /\ components K w = Raise e /\ is_unknown_unit e) \/
  e = ZeroDivisionError \/ e = TypeError.
Proof.
  intros HF. revert t. induction HF as [ | w ws Hw _ IH]; intros t; simpl;
    [discriminate | ].
  destruct (add_unit K t w) as [t1 | e'] eqn:E; cbn [bind].
  - intros H. destruct (IH _ H) as [[w' [HI HC]] | HA]; [left | now right].
    exists w'. split; [now right | exact HC].
  - intros H. injection H as <-.
    destruct (add_unit_raises _ _ _ Hw E) as [HC | HA]; [left | now right].
    exists w. split; [now left | exact HC].
Qed.

(** Where [breakdown] fails: in [solve_aliases], in [components] on a token of
    the resolved string, or in the arithmetic on a factor. *)
Lemma breakdown_raises (unit : string) (e : exn) :
  breakdown K unit = Raise e ->
  (solve_aliases unit = Raise e /\ e = IndexError) \/
  (exists names w, solve_aliases unit = Ok names /\
     In w (split_ws names) /\ components K w = Raise e /\
     is_unknown_unit e) \/
  (exists names, solve_aliases unit = Ok names /\
     (e = ZeroDivisionError \/ e = TypeError)).
Proof.
  unfold breakdown.
  destruct (solve_aliases unit) as [u | e'] eqn:A; cbn [bind].
  2:{ intros H. injection H as <-. left. split; [reflexivity | ].
      exact (solve_aliases_index_error _ _ A). }
  destruct (fold_result (add_unit K) (split_ws u) _) as [t | e'] eqn:E;
    cbn [bind]; [discriminate | ].
  intros H. injection H as <-. right.
  destruct (fold_add_unit_raises _ _ _
              (proj2 (Forall_forall _ _) (split_ws_nonempty u)) E)
    as [[w [HI HC]] | HA].
  - left. exists u, w. split; [reflexivity | split; [exact HI | exact HC]].
  - right. exists u. split; [reflexivity | exact HA].
Qed.

(** X9: where the errors of [breakdown] come from.  It raises an
    [IndexError] exactly when [solve_aliases] does; a [ValueError] it raises
    is the [Unknown unit] error of [components] on a token of the resolved
    string; it never raises a [KeyError]; and the inner loop over the SI base
    string of a token that [components] accepted never fails.  What the
    arithmetic [total_factor*factor**power] raises is not part of this
    statement. *)
Theorem breakdown_errors (unit : string) :
  (breakdown K unit = Raise IndexError <->
   solve_aliases unit = Raise IndexError) /\
  (forall msg, breakdown K unit = Raise (ValueError msg) ->
     exists names token basis,
       solve_aliases unit = Ok names /\ In token (split_ws names) /\
       components K token = Raise (unknown_unit basis) /\
       msg = ("Unknown unit " ++ basis)%string) /\
  (forall key, breakdown K unit <> Raise (KeyError key)) /\
  (forall token factor basis power p t,
     components K token = Ok (factor, basis, power) ->
     exists t', fold_result (add_base K p) (split_ws basis) t = Ok t').
Proof.
  split; [split | split; [ | split]].
  - intros H.
    destruct (breakdown_raises _ _ H)
      as [[HS _] | [[names [w [_ [_ [_ [b HB]]]]]] | [names [_ [HA | HA]]]]];
      [exact HS | discriminate HB | discriminate HA | discriminate HA].
  - intros H. unfold breakdown. rewrite H. reflexivity.
  - intros msg H.
    destruct (breakdown_raises _ _ H)
      as [[_ HI] | [[names [w [HS [HW [HC [b HB]]]]]] | [names [_ [HA | HA]]]]];
      [discriminate HI | | discriminate HA | discriminate HA].
    exists names, w, b. split; [exact HS | split; [exact HW | ]].
    rewrite <- HB. split; [exact HC | ].
    unfold unknown_unit in HB. now injection HB.
  - intros key H.
    destruct (breakdown_raises _ _ H)
      as [[_ HI] | [[names [w [_ [_ [_ [b HB]]]]]] | [names [_ [HA | HA]]]]];
      [discriminate HI | discriminate HB | discriminate HA | discriminate HA].
  - intros token factor basis power p t HC.
    exact (fold_add_base_of_components token factor basis power p t HC).
Qed.

End F.

Section G.
Variable K : Constants.

Lemma breakdown_not_SI (U : string) (r : pyval * string) :
  breakdown K U = Ok r -> (U =? "SI")%string = false.
Proof.
  intros H. apply String.eqb_neq. intros ->.
  rewrite breakdown_SI in H. discriminate.
Qed.

Lemma convert_ratio (A B : string) (fa fb : R) (s : string) (x : R)
  (kwargs : list (string * (R * string))) (kwargs_SI : keywords) :
  breakdown K A = Ok (Num fa, s) -> breakdown K B = Ok (Num fb, s) ->
  keywords_SI K kwargs = Ok kwargs_SI -> fb <> 0 ->
  convert K A B x kwargs = Ok (fa * x / fb).
Proof.
  intros HA HB HK Hb. unfold convert.
  rewrite HA, HB, (breakdown_not_SI _ _ HB), HK.
  cbn [negb bind]. rewrite String.eqb_refl.
  cbn [from_factor mul_float bind to_factor].
  rewrite float_div_nonzero by exact Hb. f_equal. field. exact Hb.
Qed.

(** X1: between two units of one signature with scalar factors, [convert]
    multiplies by the source factor and divides by the target factor,
    whatever keywords are given; to [SI] it multiplies by the source
    factor. *)
Theorem convert_same_signature (A B : string) (fa fb : R) (s : string) (x : R)
  (kwargs : list (string * (R * string))) (kwargs_SI : keywords) :
  breakdown K A = Ok (Num fa, s) -> breakdown K B = Ok (Num fb, s) ->
  keywords_SI K kwargs = Ok kwargs_SI -> fb <> 0 ->
  convert K A B x kwargs = Ok (fa * x / fb) /\
  convert K A "SI" x kwargs = Ok (fa * x).
Proof.
  intros HA HB HK Hb. split.
  - exact (convert_ratio A B fa fb s x kwargs kwargs_SI HA HB HK Hb).
  - unfold convert. rewrite HA, HK. change (negb ("SI" =? "SI")%string) with false.
    cbn [bind]. rewrite String.eqb_refl.
    cbn [from_factor mul_float bind to_factor].
    rewrite float_div_nonzero by lra. f_equal. field.
Qed.

(** X2: for three units of one signature with scalar factors, converting
    from the first to the second and on to the third is converting from the
    first to the third. *)
Theorem convert_compose (A B C : string) (fa fb fc : R) (s : string) (x : R) :
  breakdown K A = Ok (Num fa, s) -> breakdown K B = Ok (Num fb, s) ->
  breakdown K C = Ok (Num fc, s) -> fb <> 0 -> fc <> 0 ->
  (y <- convert K A B x [] ;; convert K B C y []) = convert K A C x [].
Proof.
  intros HA HB HC Hb Hc.
  rewrite (convert_ratio A B fa fb s x [] [] HA HB eq_refl Hb).
  cbn [bind].
  rewrite (convert_ratio B C fb fc s _ [] [] HB HC eq_refl Hc).
  rewrite (convert_ratio A C fa fc s x [] [] HA HC eq_refl Hc).
  f_equal. field. now split.
Qed.

(** X5: when the signatures differ, neither difference ends in [sr-1] and
    the key made of the two differences is not in [_switch], [convert]
    raises [KeyError] with that key, before the value or the keywords are
    used. *)
Theorem convert_unsupported (_from _to : string) (arg : R)
  (kwargs : list (string * (R * string)))
  (fac_from fac_to : pyval) (uni_from uni_to : string) (kwargs_SI : keywords) :
  breakdown K _from = Ok (fac_from, uni_from) ->
  _to <> "SI" ->
  breakdown K _to = Ok (fac_to, uni_to) ->
  keywords_SI K kwargs = Ok kwargs_SI ->
  uni_from <> uni_to ->
  let only_from :=
    String.concat "" (sorted_difference (split_ws uni_from) (split_ws uni_to)) in
  let only_to :=
    String.concat "" (sorted_difference (split_ws uni_to) (split_ws uni_from)) in
  take_last 4 only_to <> "sr-1" -> take_last 4 only_from <> "sr-1" ->
  lookup (only_from ++ "_to_" ++ only_to) _switch = None ->
  convert K _from _to arg kwargs = Raise (KeyError (only_from ++ "_to_" ++ only_to)).
Proof.
  intros HF HSI HT HK HN only_from only_to H1 H2 HL.
  rewrite (convert_by_switch K _ _ arg _ _ _ _ _ _ HF HSI HT HK HN).
  fold only_from only_to. unfold peel_sr.
  apply String.eqb_neq in H1. apply String.eqb_neq in H2. rewrite H1, H2.
  cbn [bind]. unfold switch. rewrite HL. reflexivity.
Qed.

(** X6: when the two signatures differ by [sr-1] alone, [convert] applies
    [per_sr] (or [times_sr]) and then raises [KeyError] for the key [_to_]:
    such a conversion never returns. *)
Theorem convert_only_sr (_from _to : string) (arg : R)
  (kwargs : list (string * (R * string)))
  (fac_from fac_to : pyval) (uni_from uni_to : string) (kwargs_SI : keywords) :
  breakdown K _from = Ok (fac_from, uni_from) ->
  _to <> "SI" ->
  breakdown K _to = Ok (fac_to, uni_to) ->
  keywords_SI K kwargs = Ok kwargs_SI ->
  let only_from :=
    String.concat "" (sorted_difference (split_ws uni_from) (split_ws uni_to)) in
  let only_to :=
    String.concat "" (sorted_difference (split_ws uni_to) (split_ws uni_from)) in
  (only_from = "" /\ only_to = "sr-1" ->
   convert K _from _to arg kwargs
   = (a <- per_sr arg kwargs_SI ;; Raise (KeyError "_to_"))) /\
  (only_from = "sr-1" /\ only_to = "" ->
   convert K _from _to arg kwargs
   = (a <- times_sr arg kwargs_SI ;; Raise (KeyError "_to_"))).
Proof.
  intros HF HSI HT HK only_from only_to.
  assert (HN : only_from <> only_to -> uni_from <> uni_to).
  { intros H E. apply H. unfold only_from, only_to. now rewrite E. }
  split; intros [E1 E2].
  - rewrite (convert_by_switch K _ _ arg _ _ _ _ _ _ HF HSI HT HK)
      by (apply HN; rewrite E1, E2; discriminate).
    fold only_from only_to. rewrite E1, E2.
    unfold peel_sr. cbn [take_last drop_last String.length Nat.sub drop take String.eqb Ascii.eqb Bool.eqb].
    change (switch "_to_sr-1") with (Ok Per_sr). cbn [bind apply_switch].
    destruct (per_sr arg kwargs_SI); reflexivity.
  - rewrite (convert_by_switch K _ _ arg _ _ _ _ _ _ HF HSI HT HK)
      by (apply HN; rewrite E1, E2; discriminate).
    fold only_from only_to. rewrite E1, E2.
    unfold peel_sr. cbn [take_last drop_last String.length Nat.sub drop take String.eqb Ascii.eqb Bool.eqb].
    change (switch "sr-1_to_") with (Ok Times_sr). cbn [bind apply_switch].
    destruct (times_sr arg kwargs_SI); reflexivity.
Qed.

Lemma breakdown_m : breakdown K "m" = Ok (Num 1, "m1").
Proof. py_run. same_number. lra. Qed.

Lemma convert_keywords (_from _to : string) (x : R)
  (kw1 kw2 : list (string * (R * string))) :
  keywords_SI K kw1 = keywords_SI K kw2 ->
  convert K _from _to x kw1 = convert K _from _to x kw2.
Proof. intros H. unfold convert. now rewrite H. Qed.

(** X7: a keyword given in a unit with a scalar factor acts as its value
    times that factor given in metres: the keyword is reduced to SI and its
    dimension is not looked at. *)
Theorem keyword_unit (_from _to : string) (x : R) (key : string) (value : R)
  (unit : string) (f : R) (s : string) (rest : list (string * (R * string))) :
  breakdown K unit = Ok (Num f, s) ->
  convert K _from _to x ((key, (value, unit)) :: rest)
  = convert K _from _to x ((key, (f * value, "m")) :: rest).
Proof.
  intros HB. apply convert_keywords. cbn [keywords_SI].
  rewrite HB, breakdown_m. cbn [bind mul_float].
  now replace (1 * (f * value)) with (f * value) by lra.
Qed.

(** X4: for a unit that breaks down to a converter with a nonzero prefix,
    [convert(U, U, v)] is [v], except for an ST magnitude, where it is
    [-v]. *)
Theorem convert_identity_nonlinear (U : string) (cls : converter)
  (prefix power : R) (s : string) (v : R) :
  breakdown K U = Ok (Conv cls prefix power, s) -> prefix <> 0 ->
  convert K U U v [] = Ok (match cls with STMag => - v | _ => v end).
Proof.
  intros HB Hp. unfold convert. rewrite HB, (breakdown_not_SI _ _ HB).
  cbn [negb bind keywords_SI]. rewrite String.eqb_refl.
  cbn [from_factor to_factor].
  pose proof (call_roundtrip cls prefix v Hp) as R.
  destruct (call cls prefix v false) as [y | e]; cbn [bind] in *;
    [ | discriminate R].
  now replace (1 * y) with y by lra.
Qed.

(** X15: a leading factor multiplies the factor, or the prefix of the
    converter, that [components] returns for the basis alone, and the power
    of the token is returned as it is written. *)
Theorem components_token (factor : Z) (basis : string) (power : Z) :
  (0 <= factor)%Z ->
  basis <> "" -> all_chars basis_char basis = true ->
  (forall f si q, components K basis = Ok (Num f, si, q) ->
     q = 1%Z /\
     exists f', components K (token factor basis power) = Ok (Num f', si, power)
                /\ f' = IZR factor * f) /\
  (forall cls p w si q, components K basis = Ok (Conv cls p w, si, q) ->
     q = 1%Z /\
     exists p', components K (token factor basis power)
                = Ok (Conv cls p' 1, si, power)
                /\ p' = IZR factor * p).
Proof.
  intros HF HB HC.
  destruct (token_parts_forms factor basis power HF HB HC) as [T1 [_ [_ T4]]].
  unfold components. rewrite T1, T4. cbn [bind].
  destruct (strip_scale K _scalings basis) as [[value bu] | ];
    [ | destruct (has_key basis (_factors K))]; cbn [bind].
  3:{ split; intros; discriminate. }
  all: match goal with
       | |- context [lookup ?b (_factors K)] =>
           destruct (lookup b (_factors K)) as [[[r | c] si'] | ]
       end; cbn [bind py_mul new_converter];
    split; intros; try discriminate;
    match goal with H : Ok _ = Ok _ |- _ => inversion H; subst; clear H end;
    (split; [reflexivity | eexists; split; [reflexivity | ring]]).
Qed.

End G.

(** * The properties at concrete units *)

Section Units.

Variable K : Constants.

Lemma breakdown_km : breakdown K "km" = Ok (Num 1000, "m1"%string).
Proof. py_run. same_number. lra. Qed.

Lemma breakdown_cm : breakdown K "cm" = Ok (Num 0.01, "m1"%string).
Proof. py_run. same_number. lra. Qed.

Lemma breakdown_mm : breakdown K "mm" = Ok (Num 0.001, "m1"%string).
Proof. py_run. same_number. lra. Qed.

Lemma breakdown_kg : breakdown K "kg" = Ok (Num 1, "kg1"%string).
Proof. py_run. same_number. lra. Qed.

Lemma breakdown_A : breakdown K "A" = Ok (Num 1e-10, "m1"%string).
Proof. py_run. same_number. lra. Qed.

End Units.

(** X1 on a doctest of [convert]: a kilometre in centimetres *)
Lemma convert_km_cm :
  convert SI_constants "km" "cm" 1 [] = Ok (1000 * 1 / 0.01) /\
  convert SI_constants "km" "SI" 1 [] = Ok (1000 * 1).
Proof.
  apply (convert_same_signature SI_constants "km" "cm" 1000 0.01 "m1" 1 [] []).
  - apply breakdown_km.
  - apply breakdown_cm.
  - reflexivity.
  - lra.
Defined.

(** X2 from kilometres over centimetres to millimetres *)
Lemma convert_km_cm_mm :
  (y <- convert SI_constants "km" "cm" 1 [] ;; convert SI_constants "cm" "mm" y [])
  = convert SI_constants "km" "mm" 1 [].
Proof.
  apply (convert_compose SI_constants "km" "cm" "mm" 1000 0.01 0.001 "m1" 1).
  - apply breakdown_km.
  - apply breakdown_cm.
  - apply breakdown_mm.
  - lra.
  - lra.
Defined.

(** X3 between kilometres and centimetres *)
Lemma roundtrip_km_cm : roundtrip SI_constants "km" "cm" 5 [] = Ok 5.
Proof.
  apply (roundtrip_same_signature SI_constants "km" "cm" 1000 0.01 "m1" 5).
  - apply breakdown_km.
  - apply breakdown_cm.
  - lra.
  - lra.
Defined.

(** X4 on an ST magnitude *)
Lemma convert_STmag_STmag : convert SI_constants "STmag" "STmag" 1 [] = Ok (- 1).
Proof.
  eapply (convert_identity_nonlinear SI_constants "STmag" STMag _ _ _ 1).
  - py_run. reflexivity.
  - lra.
Defined.

(** X5 from metres to kilograms *)
Lemma convert_m_kg :
  convert SI_constants "m" "kg" 1 [] = Raise (KeyError "m1_to_kg1").
Proof.
  apply (convert_unsupported SI_constants "m" "kg" 1 [] (Num 1) (Num 1)
           "m1" "kg1" []).
  - apply breakdown_m.
  - discriminate.
  - apply breakdown_kg.
  - reflexivity.
  - discriminate.
  - discriminate.
  - discriminate.
  - reflexivity.
Defined.

(** X6 from jansky to jansky per steradian *)
Lemma convert_Jy_Jy_sr :
  convert SI_constants "Jy" "Jy sr-1" 1 [("diam"%string, (3, "mas"%string))]
  = Raise (KeyError "_to_").
Proof.
  edestruct (convert_only_sr SI_constants "Jy" "Jy sr-1" 1
               [("diam"%string, (3, "mas"%string))]) as [H _].
  - py_run. reflexivity.
  - discriminate.
  - py_run. reflexivity.
  - py_run. reflexivity.
  - rewrite H by (split; reflexivity). py_run. reflexivity.
Defined.

(** X7 on a doctest of [convert]: the reference wavelength in angstrom and
    in metres *)
Lemma keyword_unit_angstrom :
  convert SI_constants "A" "km/s" 4553 [("wave"%string, (4552, "A"%string))]
  = convert SI_constants "A" "km/s" 4553
      [("wave"%string, (1e-10 * 4552, "m"%string))].
Proof.
  apply (keyword_unit SI_constants "A" "km/s" 4553 "wave" 4552 "A" 1e-10 "m1" []).
  apply breakdown_A.
Defined.

(** X9 on an unknown unit *)
Lemma breakdown_errors_zz :
  exists names token basis,
    solve_aliases "zz" = Ok names /\ In token (split_ws names) /\
    components SI_constants token = Raise (unknown_unit basis) /\
    "Unknown unit zz"%string = ("Unknown unit " ++ basis)%string.
Proof.
  apply (breakdown_errors SI_constants "zz").
  py_run. reflexivity.
Defined.

(** X10 on a doctest of [breakdown] *)
Lemma breakdown_SI_bases_erg :
  exists units powers,
    "kg1 m-1 s-3"%string = signature units powers /\
    NoDup units /\ length units = length powers /\ incl units SI_bases.
Proof.
  apply (breakdown_SI_bases SI_constants "erg s-1 cm-2 A-1" (Num 1.0e7)).
  py_run. same_number. lra.
Defined.

(** X11 on a unit that ends in a division sign *)
Lemma solve_aliases_raises_slash : exists e, solve_aliases "m/" = Raise e.
Proof.
  apply (proj2 (proj2 (solve_aliases_raises "m/"))).
  split; [reflexivity | ].
  exists "m/"%string. split; cbv; tauto.
Defined.

(** X12 on a unit written with division signs *)
Lemma solve_aliases_no_slash_erg :
  contains_char "/" "erg s-1 cm-2 A-1" = false.
Proof.
  apply (solve_aliases_no_slash "erg/s/cm2/A").
  reflexivity.
Defined.

(** X13 on ten milliwatt to the power minus two *)
Lemma token_parts_token_mW :
  token_parts "10mW-2" = Ok (10%Z, "mW"%string, (-2)%Z).
Proof.
  apply (proj1 (token_parts_token 10 "mW" (-2) ltac:(lia) ltac:(discriminate)
                  eq_refl)).
Defined.

(** X14 on a square centimetre after a division sign *)
Lemma negate_power_token_cm2 :
  (s <- negate_power "cm2" ;; token_parts s) = Ok (1%Z, "cm"%string, (-2)%Z).
Proof.
  apply (proj1 (proj2 (negate_power_token 1 "cm" 2 ltac:(lia) ltac:(discriminate)
                         eq_refl))).
Defined.

(** X15 on ten milliwatt *)
Lemma components_token_10mW :
  exists f',
    components SI_constants "10mW1" = Ok (Num f', "kg m2 s-3"%string, 1%Z) /\
    f' = 0.01.
Proof.
  destruct (components_token SI_constants 10 "mW" 1 ltac:(lia) ltac:(discriminate)
              eq_refl) as [H _].
  destruct (H (1 * 1e-3 * 1) "kg m2 s-3"%string 1%Z) as [_ [f' [E F]]].
  - py_run. same_number. lra.
  - exists f'. split; [exact E | ]. rewrite F. simpl. lra.
Defined.

(** X16 on the hour *)
Lemma components_of_key_h :
  components SI_constants "h" = Ok (direct_entry (Scalar 3600), "s"%string, 1%Z).
Proof.
  apply (components_of_key SI_constants "h" (Scalar 3600) "s").
  - reflexivity.
  - discriminate.
Defined.

(** X17 for a wavelength of two metres *)
Lemma velocity_distance_roundtrip_2 :
  (v <- distance2velocity SI_constants 3 [("wave"%string, 2)] ;;
   velocity2distance SI_constants v [("wave"%string, 2)]) = Ok 3 /\
  (d <- velocity2distance SI_constants 3 [("wave"%string, 2)] ;;
   distance2velocity SI_constants d [("wave"%string, 2)]) = Ok 3.
Proof.
  apply (velocity_distance_roundtrip SI_constants 3 2 [("wave"%string, 2)]).
  - reflexivity.
  - lra.
  - simpl. lra.
Defined.

(** X18 for a frequency of two hertz *)
Lemma flux_roundtrip_freq :
  (l <- fnu2flambda SI_constants 3 [("freq"%string, 2)] ;;
   flambda2fnu SI_constants l [("freq"%string, 2)]) = Ok 3 /\
  (n <- flambda2fnu SI_constants 3 [("freq"%string, 2)] ;;
   fnu2flambda SI_constants n [("freq"%string, 2)]) = Ok 3.
Proof.
  assert (Hc : cc SI_constants <> 0) by (simpl; lra).
  apply (proj2 (flux_roundtrip SI_constants 3 [("freq"%string, 2)] Hc) 2).
  - reflexivity.
  - reflexivity.
  - lra.
Defined.

(** X19 for a wavelength of two metres *)
Lemma nufnu_roundtrip_wave :
  (y <- fnu2nufnu SI_constants 3 [("wave"%string, 2)] ;;
   nufnu2fnu SI_constants y [("wave"%string, 2)]) = Ok 3 /\
  (y <- nufnu2fnu SI_constants 3 [("wave"%string, 2)] ;;
   fnu2nufnu SI_constants y [("wave"%string, 2)]) = Ok 3.
Proof.
  assert (Hc : cc SI_constants <> 0) by (simpl; lra).
  apply (proj1 (nufnu_roundtrip SI_constants 3 [("wave"%string, 2)] Hc) 2).
  - reflexivity.
  - lra.
Defined.

(** X20 for a distance of three metres *)
Lemma distance2frequency_involution_3 :
  (f <- distance2frequency SI_constants 3 [] ;;
   distance2frequency SI_constants f []) = Ok 3.
Proof.
  apply (distance2frequency_involution SI_constants 3 []).
  - lra.
  - simpl. lra.
Defined.

(** X21 for a pixel of one *)
Lemma sr_roundtrip_pix :
  (q <- per_sr 3 [("pix"%string, 1)] ;; times_sr q [("pix"%string, 1)]) = Ok 3 /\
  (q <- times_sr 3 [("pix"%string, 1)] ;; per_sr q [("pix"%string, 1)]) = Ok 3.
Proof.
  apply (sr_roundtrip 3 ((2 * PI * 1) ^ 2) [("pix"%string, 1)]).
  - reflexivity.
  - apply pow_nonzero. apply Rgt_not_eq. unfold Rgt. positive.
Defined.

(** X22 for a wavelength of two metres *)
Lemma roundtrip_spatialfreq_wave_2 :
  roundtrip SI_constants "m" "cy/arcsec" 85 [("wave"%string, (2, "m"%string))]
  = Ok 85.
Proof.
  apply (roundtrip_spatialfreq_wave SI_constants 85 2).
  lra.
Defined.

(** X23 on the ST magnitude *)
Lemma converter_roundtrip_ST :
  (y <- call STMag 1 2 false ;; call STMag 1 y true) = Ok (- 2) /\
  (0 < 2 ->
   (y <- call STMag 1 2 true ;; call STMag 1 y false)
   = Ok (F0_ST * F0_ST / 2)).
Proof.
  apply (converter_roundtrip STMag 1 2).
  lra.
Defined.

(** X25 on a page of three lines: markup, a data line and a name *)
Lemma getHipData_written_page :
  "OK"%string = "OK"%string /\
  Forall hip_written_line
    [("12 34" ++ String "010" "")%string; ("# name" ++ String "010" "")%string].
Proof.
  apply (getHipData_written "OK"
           ("<html>" ++ String "010" ("12|34" ++ String "013" (String "010" "name")))).
  reflexivity.
Defined.
